(** * ProtobufPoc: the streaming message deframer [Common::MessageParser]

    A shallow embedding of [src/common/MessageParser.cpp] and the properties
    of its reassembly loop.  The C++ object is a record, one call of
    [ParseMessage] is a function from the object, the caller's memory and the
    output vector to the new object and vector, and the [while] loop is a
    fuelled iteration of its body. *)

From Stdlib Require Import ZArith List Bool Lia.
From Stdlib.Strings Require Import Byte.
Import ListNotations.
Open Scope Z_scope.

Module Common.

(** ** Machine integers *)

(** [uint32_t] arithmetic wraps modulo 2^32. *)
Definition u32 (z : Z) : Z := z mod 2 ^ 32.

Definition INT_MAX : Z := 2 ^ 31 - 1.
Definition INT_MIN : Z := - 2 ^ 31.

(** ** Outcomes

    A run of the C++ code either goes through, or stops where the model
    stops following it: at a copy that reads outside the caller's memory, or
    at an [int] that cannot hold the value stored into it (see [to_int]). *)

Inductive outcome (A : Type) : Type :=
| Returned (a : A)
| Undefined.

Arguments Returned {A} a.
Arguments Undefined {A}.

Definition bind {A B : Type} (o : outcome A) (k : A -> outcome B) : outcome B :=
  match o with
  | Returned a => k a
  | Undefined => Undefined
  end.

Notation "x <- o ;; k" := (bind o (fun x => k))
  (at level 61, o at next level, right associativity).

(** A value stored into an [int].  On line 62 the value is the sum of two
    [int]s, and a sum outside the range of [int] is undefined behaviour.  On
    lines 36, 51 and 59 the value is a [uint32_t]; above [INT_MAX] its
    conversion to [int] is not undefined but depends on the implementation
    (modular since C++20), and what the code does with the negative [int]
    then depends on [Buffer::SetData], which is not part of the sources.  The
    model stops there as well, so it says nothing about such runs; they need
    a chunk of more than [INT_MAX] bytes ([int_conversions_fit]). *)
Definition to_int (z : Z) : outcome Z :=
  if (INT_MIN <=? z) && (z <=? INT_MAX) then Returned z else Undefined.

(** ** The caller's memory

    [rawData] is the memory that starts at the pointer the caller passes: the
    chunk is its first [size] bytes, and whatever the caller's buffer holds
    after the chunk follows.  [fetch rawData off n] is the source of a copy of
    [n] bytes from [rawData + off]. *)

Definition fetch (rawData : list byte) (off n : Z) : outcome (list byte) :=
  if (0 <=? off) && (0 <=? n) && (off + n <=? Z.of_nat (length rawData))
  then Returned (firstn (Z.to_nat n) (skipn (Z.to_nat off) rawData))
  else Undefined.

(** ** Accumulator buffer *)

(** Modelled from the spec: the accumulator buffer class behind
    [m_firstBuffer], [m_secondBuffer] and [NetworkMessage::messageData]
    (declared in a header that is not part of the sources).  [SetData] copies
    [count] bytes from the source to the buffer at its current logical size
    and advances the size by [count]; [GetSize] is the logical size;
    [GetData] is a view of the bytes held; [ClearData] resets the size to
    0. *)
Definition Buffer : Type := list byte.

Definition GetSize (b : Buffer) : Z := Z.of_nat (length b).
Definition GetData (b : Buffer) : list byte := b.
Definition SetData (b : Buffer) (src : list byte) : Buffer := b ++ src.
Definition ClearData : Buffer := [].

(** ** Header and message records *)

Record MessageHeader : Type := mkHeader {
  messageType : Z;
  messageLength : Z
}.

Definition byteZ (b : byte) : Z := Z.of_N (Byte.to_N b).

Definition le32 (bs : list byte) : Z :=
  fold_right (fun b acc => byteZ b + 256 * acc) 0 (firstn 4 bs).

(** Modelled from the spec: the layout of [MessageHeader] ([NetworkTypes.h] is
    not part of the sources): 8 bytes, bytes 0..3 the message type and bytes
    4..7 the payload length, both unsigned 32-bit integers in the byte order
    of the platform, here little-endian.  This is what the [memcpy] of line 47
    stores into [m_header]. *)
Definition decodeHeader (bs : list byte) : MessageHeader :=
  {| messageType := le32 bs; messageLength := le32 (skipn 4 bs) |}.

(** Modelled from the spec: [MessageHeader::Clear] resets the header to its
    unset state, which is also the state of the header of a new parser. *)
Definition Clear : MessageHeader :=
  {| messageType := 0; messageLength := 0 |}.

Record NetworkMessage : Type := mkMessage {
  header : MessageHeader;
  messageData : Buffer
}.

(** ** The parser object *)

Definition s_headerSize : Z := 8.

Inductive BufferId : Type := FirstBuffer | SecondBuffer.

Record MessageParser : Type := mkParser {
  m_firstBuffer : Buffer;
  m_secondBuffer : Buffer;
  m_activeBuffer : BufferId;
  m_isHeaderSet : bool;
  m_header : MessageHeader;
  m_totalBytesParsed : Z
}.

(** Modelled from the spec: the initial values of the members that the
    constructor (lines 18-21) does not set; they come from the class
    declaration, which is not part of the sources.  A new parser awaits a
    header with both buffers empty, no header set and the cursor at 0.  The
    constructor itself sets [m_activeBuffer(&m_firstBuffer)]. *)
Definition fresh : MessageParser :=
  {| m_firstBuffer := [];
     m_secondBuffer := [];
     m_activeBuffer := FirstBuffer;
     m_isHeaderSet := false;
     m_header := Clear;
     m_totalBytesParsed := 0 |}.

(** [*m_activeBuffer] *)
Definition active (p : MessageParser) : Buffer :=
  match m_activeBuffer p with
  | FirstBuffer => m_firstBuffer p
  | SecondBuffer => m_secondBuffer p
  end.

Definition setActive (p : MessageParser) (b : Buffer) : MessageParser :=
  match m_activeBuffer p with
  | FirstBuffer =>
      mkParser b (m_secondBuffer p) FirstBuffer
               (m_isHeaderSet p) (m_header p) (m_totalBytesParsed p)
  | SecondBuffer =>
      mkParser (m_firstBuffer p) b SecondBuffer
               (m_isHeaderSet p) (m_header p) (m_totalBytesParsed p)
  end.

Definition setTotal (p : MessageParser) (t : Z) : MessageParser :=
  mkParser (m_firstBuffer p) (m_secondBuffer p) (m_activeBuffer p)
           (m_isHeaderSet p) (m_header p) t.

Definition setHeader (p : MessageParser) (s : bool) (h : MessageHeader)
  : MessageParser :=
  mkParser (m_firstBuffer p) (m_secondBuffer p) (m_activeBuffer p)
           s h (m_totalBytesParsed p).

(** [MessageParser::SwapBuffer] (lines 88-100) *)
Definition SwapBuffer (p : MessageParser) : MessageParser :=
  match m_activeBuffer p with
  | FirstBuffer =>
      mkParser ClearData (m_secondBuffer p) SecondBuffer
               (m_isHeaderSet p) (m_header p) (m_totalBytesParsed p)
  | SecondBuffer =>
      mkParser (m_firstBuffer p) ClearData FirstBuffer
               (m_isHeaderSet p) (m_header p) (m_totalBytesParsed p)
  end.

(** ** One call of [ParseMessage] *)

(** What a call does to the outside, in the order it does it: a copy of
    [count] bytes out of [rawData + offset], and a [push_back] of a completed
    message on the output vector. *)
Inductive event : Type :=
| Read (offset count : Z)
| Emit (msg : NetworkMessage).

(** What the loop works on: the object, the two locals, the output vector,
    and the events so far. *)
Record Frame : Type := mkFrame {
  self : MessageParser;
  headerOffset : Z;
  messageOffset : Z;
  messages : list NetworkMessage;
  trace : list event
}.

Section Call.

Variable rawData : list byte.
Variable size : Z.

(** Lines 34-56: the [if (!m_isHeaderSet)] block. *)
Definition headerPhase (f : Frame) : outcome Frame :=
  let p := self f in
  startSize <- to_int (GetSize (active p)) ;;
  let count := Z.min (u32 (size - m_totalBytesParsed p))
                     (u32 (s_headerSize - startSize)) in
  src <- fetch rawData (messageOffset f) count ;;
  let p1 := setActive p (SetData (active p) src) in
  let p2 := setTotal p1 (u32 (m_totalBytesParsed p1 + GetSize (active p1))) in
  let tr := trace f ++ [Read (messageOffset f) count] in
  if GetSize (active p2) =? s_headerSize then
    let p3 :=
      setHeader p2 true (decodeHeader (firstn 8 (GetData (active p2)))) in
    ho <- to_int (u32 (u32 (s_headerSize - startSize)
                       + u32 (messageOffset f))) ;;
    Returned (mkFrame (SwapBuffer p3) ho (messageOffset f) (messages f) tr)
  else
    Returned (mkFrame p2 (headerOffset f) (messageOffset f) (messages f) tr).

(** Lines 57-81: the [if (m_isHeaderSet && m_totalBytesParsed < size)]
    block. *)
Definition payloadPhase (f : Frame) : outcome Frame :=
  let p := self f in
  let len := messageLength (m_header p) in
  sizeToCopy <- to_int (Z.min size (u32 (len - GetSize (active p)))) ;;
  mo <- to_int (sizeToCopy + headerOffset f) ;;
  src <- fetch rawData (headerOffset f) sizeToCopy ;;
  let p1 := setActive p (SetData (active p) src) in
  let p2 := setTotal p1 (u32 (m_totalBytesParsed p1 + sizeToCopy)) in
  let tr := trace f ++ [Read (headerOffset f) sizeToCopy] in
  if GetSize (active p2) =? len then
    let msg := mkMessage (m_header p2)
                         (firstn (Z.to_nat len) (GetData (active p2))) in
    let p3 := setHeader p2 false Clear in
    Returned (mkFrame (SwapBuffer p3) (headerOffset f) mo
                      (messages f ++ [msg]) (tr ++ [Emit msg]))
  else
    Returned (mkFrame p2 (headerOffset f) mo (messages f) tr).

(** Lines 33-82: the body of the [while]. *)
Definition iteration (f : Frame) : outcome Frame :=
  f1 <- (if m_isHeaderSet (self f) then Returned f else headerPhase f) ;;
  if m_isHeaderSet (self f1) && (m_totalBytesParsed (self f1) <? size)
  then payloadPhase f1
  else Returned f1.

(** Line 32: [while (m_totalBytesParsed < size)].  [None] is a run that used
    up its fuel. *)
Fixpoint loop (fuel : nat) (f : Frame) : option (outcome Frame) :=
  if m_totalBytesParsed (self f) <? size then
    match fuel with
    | O => None
    | S n =>
        match iteration f with
        | Returned f' => loop n f'
        | Undefined => Some Undefined
        end
    end
  else Some (Returned f).

End Call.

(** What a call leaves behind: the object, the output vector, the returned
    [bool], and the events of the call. *)
Record CallResult : Type := mkResult {
  parser : MessageParser;
  output : list NetworkMessage;
  hasMessages : bool;
  events : list event
}.

Definition isEmpty {A : Type} (l : list A) : bool :=
  match l with
  | [] => true
  | _ :: _ => false
  end.

(** Lines 28-86, with the fuel of the loop as a parameter. *)
Definition ParseMessage_fuel (fuel : nat) (p : MessageParser)
    (rawData : list byte) (size : Z) (msgs : list NetworkMessage)
  : option (outcome CallResult) :=
  match loop rawData size fuel (mkFrame p 0 0 msgs []) with
  | None => None
  | Some Undefined => Some Undefined
  | Some (Returned f) =>
      Some (Returned (mkResult (setTotal (self f) 0) (messages f)
                               (negb (isEmpty (messages f))) (trace f)))
  end.

(** One more iteration than the chunk has bytes is all the loop ever runs
    (see [loop_fuel_enough]); the call is given that much. *)
Definition ParseMessage (p : MessageParser) (rawData : list byte) (size : Z)
    (msgs : list NetworkMessage) : option (outcome CallResult) :=
  ParseMessage_fuel (S (Z.to_nat size)) p rawData size msgs.

(** A sequence of calls, each on a buffer that holds the chunk and nothing
    else, all on the same output vector; the returned flags are collected. *)
Fixpoint feed (p : MessageParser) (chunks : list (list byte))
    (msgs : list NetworkMessage) (flags : list bool)
  : option (outcome (MessageParser * list NetworkMessage * list bool)) :=
  match chunks with
  | [] => Some (Returned (p, msgs, flags))
  | c :: rest =>
      match ParseMessage p c (Z.of_nat (length c)) msgs with
      | Some (Returned r) =>
          feed (parser r) rest (output r) (flags ++ [hasMessages r])
      | Some Undefined => Some Undefined
      | None => None
      end
  end.

(** The states a parser object goes through. *)
Inductive reachable : MessageParser -> Prop :=
| reachable_fresh : reachable fresh
| reachable_call p rawData size msgs r :
    reachable p ->
    0 <= size < 2 ^ 32 ->
    ParseMessage p rawData size msgs = Some (Returned r) ->
    reachable (parser r).

(** ** The test fixture of [MessageParserTest.cpp] *)

(** [s_header{ MessageId::Attack, 14 }]; the enumeration is not part of the
    sources, its value is taken as 1. *)
Definition s_header : list byte :=
  [x01; x00; x00; x00; x0e; x00; x00; x00].

(** [s_messageData], the letters a to n. *)
Definition s_messageData : list byte :=
  [x61; x62; x63; x64; x65; x66; x67; x68; x69; x6a; x6b; x6c; x6d; x6e].

Definition s_message : NetworkMessage :=
  mkMessage (mkHeader 1 14) s_messageData.

(** ** Reading the events of a call *)

(** The messages completed, in the order of their [push_back]. *)
Fixpoint completed (tr : list event) : list NetworkMessage :=
  match tr with
  | [] => []
  | Read _ _ :: rest => completed rest
  | Emit m :: rest => m :: completed rest
  end.

(** The number of bytes copied out of [rawData]. *)
Fixpoint consumed (tr : list event) : Z :=
  match tr with
  | [] => 0
  | Read _ n :: rest => n + consumed rest
  | Emit _ :: rest => consumed rest
  end.

(** One past the highest index of [rawData] a copy reads. *)
Fixpoint readExtent (tr : list event) : Z :=
  match tr with
  | [] => 0
  | Read off n :: rest => Z.max (off + n) (readExtent rest)
  | Emit _ :: rest => readExtent rest
  end.

(** The call ends on the completion of a message: its last event is the
    [push_back]. *)
Definition endsOnBoundary (tr : list event) : Prop :=
  exists tr' m, tr = tr' ++ [Emit m].

(** A byte stream cut into chunks of the given sizes. *)
Fixpoint chunks (sizes : list nat) (stream : list byte) : list (list byte) :=
  match sizes with
  | [] => []
  | n :: rest => firstn n stream :: chunks rest (skipn n stream)
  end.

(** ** The two states of the reassembly *)

(** No header decoded: [b] holds the header bytes so far. *)
Definition AwaitingHeader (b : Buffer) (total : Z) : MessageParser :=
  mkParser b [] FirstBuffer false Clear total.

(** Header [h] decoded: [b] holds the payload bytes so far. *)
Definition AwaitingPayload (h : MessageHeader) (b : Buffer) (total : Z)
  : MessageParser :=
  mkParser [] b SecondBuffer true h total.

(** The invariant of the [while] loop, at its test.  [pos] is where the next
    copy out of [rawData] starts. *)
Definition pos (f : Frame) : Z :=
  if m_isHeaderSet (self f) then headerOffset f else messageOffset f.

Definition shape (p : MessageParser) : Prop :=
  (exists b, p = AwaitingHeader b (m_totalBytesParsed p) /\ GetSize b < 8) \/
  (exists h b, p = AwaitingPayload h b (m_totalBytesParsed p) /\
     0 <= messageLength h < 2 ^ 32 /\
     GetSize b <= messageLength h /\
     (GetSize b = messageLength h -> messageLength h = 0)).

Definition frame_ok (size : Z) (f : Frame) : Prop :=
  shape (self f) /\
  0 <= headerOffset f <= INT_MAX /\
  0 <= messageOffset f <= INT_MAX /\
  0 <= m_totalBytesParsed (self f) /\
  (m_totalBytesParsed (self f) < size ->
     m_totalBytesParsed (self f) <= pos f + 7 /\
     (m_isHeaderSet (self f) = false ->
        active (self f) = [] \/ m_totalBytesParsed (self f) = 0)).

(** The frames the loop of one call goes through, from [f0]. *)
Inductive visits (rawData : list byte) (size : Z) (f0 : Frame)
  : Frame -> Prop :=
| visits_start : visits rawData size f0 f0
| visits_next f f' :
    visits rawData size f0 f ->
    m_totalBytesParsed (self f) < size ->
    iteration rawData size f = Returned f' ->
    visits rawData size f0 f'.

(** What the loop is left to run: the bytes of the chunk not yet counted,
    and one more iteration if a header is decoded. *)
Definition budget (size : Z) (f : Frame) : Z :=
  size - m_totalBytesParsed (self f)
  + (if m_isHeaderSet (self f) then 1 else 0).

(** A header of 8 bytes that declares the largest payload length. *)
Definition hugeHeader : list byte :=
  [x01; x00; x00; x00; xff; xff; xff; xff].

(** A header of 8 bytes that declares an empty payload. *)
Definition emptyHeader : list byte :=
  [x01; x00; x00; x00; x00; x00; x00; x00].

(** The state of the object between two calls. *)
Definition idle (p : MessageParser) : Prop :=
  shape p /\ m_totalBytesParsed p = 0.

(** A frame whose last event is a [push_back] has a parser that awaits a
    header with both buffers empty. *)
Definition boundary_ok (f : Frame) : Prop :=
  endsOnBoundary (trace f) -> exists t, self f = AwaitingHeader [] t.

(** The events and the vector grow together: the vector by the messages of
    the new events. *)
Definition grows (f f' : Frame) : Prop :=
  exists evs, trace f' = trace f ++ evs /\
              messages f' = messages f ++ completed evs.

(** ** Statements that are tested against the code *)

(** The return value read as a report on the call alone: [true] exactly when
    the call completed a message. *)
Definition returns_true_iff_completed : Prop :=
  forall p rawData size msgs r,
    reachable p -> 0 <= size < 2 ^ 32 ->
    ParseMessage p rawData size msgs = Some (Returned r) ->
    (hasMessages r = true <-> completed (events r) <> []).

(** A maximum frame size that is enforced: a call that decodes a header with
    a larger [messageLength] does not return with that header accepted and
    its payload awaited. *)
Definition rejects_frames_over (maxFrameSize : Z) : Prop :=
  forall hdr msgs r,
    length hdr = 8%nat ->
    maxFrameSize < messageLength (decodeHeader hdr) ->
    ParseMessage fresh hdr 8 msgs = Some (Returned r) ->
    parser r <> AwaitingPayload (decodeHeader hdr) [] 0.

(** A message with an empty payload is completed by the call that consumes
    the last byte of its header. *)
Definition emits_empty_message_with_header : Prop :=
  forall hdr rest size msgs r,
    length hdr = 8%nat ->
    messageLength (decodeHeader hdr) = 0 ->
    8 <= size <= Z.of_nat (length (hdr ++ rest)) ->
    ParseMessage fresh (hdr ++ rest) size msgs = Some (Returned r) ->
    In (mkMessage (decodeHeader hdr) []) (completed (events r)).

(** Every pass through the body that leaves the loop running has moved the
    cursor forward. *)
Definition every_iteration_advances : Prop :=
  forall p rawData size msgs f f',
    reachable p -> 0 <= size < 2 ^ 32 ->
    visits rawData size (mkFrame p 0 0 msgs []) f ->
    m_totalBytesParsed (self f) < size ->
    iteration rawData size f = Returned f' ->
    m_totalBytesParsed (self f') < size ->
    m_totalBytesParsed (self f) < m_totalBytesParsed (self f').

(** ** Streams of whole frames *)

(** A frame on the wire: its 8 header bytes and its payload bytes. *)
Definition WireFrame : Type := (list byte * list byte)%type.

Definition wellFramed (w : WireFrame) : Prop :=
  GetSize (fst w) = 8 /\
  messageLength (decodeHeader (fst w)) = GetSize (snd w).

(** The frames back to back. *)
Fixpoint wire (ws : list WireFrame) : list byte :=
  match ws with
  | [] => []
  | w :: rest => fst w ++ snd w ++ wire rest
  end.

(** The messages the frames carry. *)
Definition decoded (ws : list WireFrame) : list NetworkMessage :=
  map (fun w => mkMessage (decodeHeader (fst w)) (snd w)) ws.

(** The last frame has a payload of at least one byte. *)
Fixpoint endsWithPayload (ws : list WireFrame) : Prop :=
  match ws with
  | [] => True
  | w :: rest =>
      match rest with
      | [] => 0 < GetSize (snd w)
      | _ :: _ => endsWithPayload rest
      end
  end.

(** The events of a call that goes through the frames one after the other,
    the first one at offset [off]. *)
Fixpoint wireEvents (off : Z) (ws : list WireFrame) : list event :=
  match ws with
  | [] => []
  | w :: rest =>
      Read off 8
      :: Read (8 + off) (GetSize (snd w))
      :: Emit (mkMessage (decodeHeader (fst w)) (snd w))
      :: wireEvents (GetSize (snd w) + (8 + off)) rest
  end.

(** Two objects that differ at most in the header they hold while no header
    is set. *)
Definition sameParsing (p q : MessageParser) : Prop :=
  m_firstBuffer p = m_firstBuffer q /\
  m_secondBuffer p = m_secondBuffer q /\
  m_activeBuffer p = m_activeBuffer q /\
  m_isHeaderSet p = m_isHeaderSet q /\
  m_totalBytesParsed p = m_totalBytesParsed q /\
  (m_isHeaderSet p = true -> m_header p = m_header q).

Definition sameFrame (f g : Frame) : Prop :=
  sameParsing (self f) (self g) /\
  headerOffset f = headerOffset g /\
  messageOffset f = messageOffset g /\
  messages f = messages g /\
  trace f = trace g.

(** Two outcomes of the same kind, with the same effects. *)
Definition sameOutcome {A : Type} (R : A -> A -> Prop)
    (o o' : option (outcome A)) : Prop :=
  match o, o' with
  | Some (Returned a), Some (Returned a') => R a a'
  | Some Undefined, Some Undefined => True
  | None, None => True
  | _, _ => False
  end.

Definition sameResult (r r' : CallResult) : Prop :=
  sameParsing (parser r) (parser r') /\
  output r = output r' /\
  hasMessages r = hasMessages r' /\
  events r = events r'.

(** The bytes of an incomplete header that a parser holds from earlier
    calls. *)
Definition carried (p : MessageParser) : Z :=
  if m_isHeaderSet p then 0 else GetSize (active p).

(** [n] copies of the test frame, as [TestMulti] and [TestUneven] lay them
    out in [netBuffer]. *)
Definition testFrames (n : nat) : list WireFrame :=
  repeat (s_header, s_messageData) n.

(** ** Further properties *)

(** A message whose payload has the length its header declares. *)
Definition fits (m : NetworkMessage) : Prop :=
  GetSize (messageData m) = messageLength (header m).

(** The messages among the events all fit their headers. *)
Definition emitsFitting (e : event) : Prop :=
  match e with
  | Read _ _ => True
  | Emit m => fits m
  end.

(** A copy that starts at or after [rawData] and ends before
    [rawData + 2 * size - 1]. *)
Definition withinTwice (size : Z) (e : event) : Prop :=
  match e with
  | Read off n => 0 <= off /\ 0 <= n /\ off + n <= 2 * size - 1
  | Emit _ => True
  end.

(** The events of a frame are the events of an earlier frame and more events
    that all satisfy [P]. *)
Definition appends (P : event -> Prop) (f f' : Frame) : Prop :=
  exists evs, trace f' = trace f ++ evs /\ Forall P evs.

(** The copy of the [n] bytes of an incomplete header at the end of a chunk,
    if there are any. *)
Definition tailRead (off n : Z) : list event :=
  if 0 <? n then [Read off n] else [].

(** A frame cut into pieces, one call for each: the pieces of the header and
    the pieces of the payload, so that no piece goes across the end of the
    header. *)
Definition Pieces : Type := (list (list byte) * list (list byte))%type.

Definition calls (f : Pieces) : list (list byte) := fst f ++ snd f.

Definition pieceFrame (f : Pieces) : WireFrame :=
  (concat (fst f), concat (snd f)).

(** A piece a call can take: at least one byte, and a size an [int] holds. *)
Definition piece (c : list byte) : Prop := 0 < GetSize c <= INT_MAX.

Definition inPieces (f : Pieces) : Prop :=
  Forall piece (fst f) /\ Forall piece (snd f) /\ snd f <> [] /\
  wellFramed (pieceFrame f).

(** The values the calls on the pieces return: [had] until the first message
    is complete, [true] from then on. *)
Fixpoint flagsOf (had : bool) (fs : list Pieces) : list bool :=
  match fs with
  | [] => []
  | f :: rest =>
      repeat had (length (calls f) - 1) ++ true :: flagsOf true rest
  end.

(** The payload of the last frame has more than [d] bytes. *)
Fixpoint lastPayloadOver (d : Z) (ws : list WireFrame) : Prop :=
  match ws with
  | [] => True
  | w :: rest =>
      match rest with
      | [] => d < GetSize (snd w)
      | _ :: _ => lastPayloadOver d rest
      end
  end.

(** The payload bytes that the message in progress still lacks. *)
Definition owed (p : MessageParser) : Z :=
  if m_isHeaderSet p
  then messageLength (m_header p) - GetSize (active p)
  else 0.

(** Whenever the chunks given to a new parser add up to whole frames, the
    parser is left as new. *)
Definition resets_on_message_boundary : Prop :=
  forall (cs : list (list byte)) (ws : list WireFrame) (p : MessageParser)
         (msgs : list NetworkMessage) (flags : list bool),
    Forall wellFramed ws -> concat cs = wire ws ->
    feed fresh cs [] [] = Some (Returned (p, msgs, flags)) ->
    p = fresh.

(** * Properties *)

(** ** Integers, reads and lists *)

Lemma u32_small (z : Z) : 0 <= z < 2 ^ 32 -> u32 z = z.
Proof. intros H. unfold u32. apply Z.mod_small. exact H. Qed.

Lemma to_int_inv (z v : Z) :
  to_int z = Returned v -> v = z /\ INT_MIN <= z <= INT_MAX.
Proof.
  unfold to_int. intros H.
  destruct (INT_MIN <=? z) eqn:E1; destruct (z <=? INT_MAX) eqn:E2;
    simpl in H; try discriminate.
  inversion H; subst. apply Z.leb_le in E1. apply Z.leb_le in E2. lia.
Qed.

Lemma to_int_ok (z : Z) : INT_MIN <= z <= INT_MAX -> to_int z = Returned z.
Proof.
  intros [H1 H2]. unfold to_int.
  apply Z.leb_le in H1. apply Z.leb_le in H2. rewrite H1, H2. reflexivity.
Qed.

Lemma fetch_inv (raw : list byte) (off n : Z) (src : list byte) :
  fetch raw off n = Returned src ->
  0 <= off /\ 0 <= n /\ off + n <= Z.of_nat (length raw) /\
  GetSize src = n /\
  src = firstn (Z.to_nat n) (skipn (Z.to_nat off) raw).
Proof.
  unfold fetch. intros H.
  destruct (0 <=? off) eqn:E1; destruct (0 <=? n) eqn:E2;
    destruct (off + n <=? Z.of_nat (length raw)) eqn:E3;
    simpl in H; try discriminate.
  inversion H; subst; clear H.
  apply Z.leb_le in E1. apply Z.leb_le in E2. apply Z.leb_le in E3.
  repeat split; try assumption.
  unfold GetSize. rewrite length_firstn, length_skipn. lia.
Qed.

Lemma fetch_ok (raw : list byte) (off n : Z) :
  0 <= off -> 0 <= n -> off + n <= Z.of_nat (length raw) ->
  fetch raw off n = Returned (firstn (Z.to_nat n) (skipn (Z.to_nat off) raw)).
Proof.
  intros H1 H2 H3. unfold fetch.
  apply Z.leb_le in H1. apply Z.leb_le in H2. apply Z.leb_le in H3.
  rewrite H1, H2, H3. reflexivity.
Qed.

Lemma GetSize_app (a b : Buffer) : GetSize (a ++ b) = GetSize a + GetSize b.
Proof. unfold GetSize. rewrite length_app. lia. Qed.

Lemma GetSize_nonneg (b : Buffer) : 0 <= GetSize b.
Proof. unfold GetSize. lia. Qed.

Lemma GetSize_nil_inv (b : Buffer) : GetSize b <= 0 -> b = [].
Proof. destruct b; [reflexivity|]. unfold GetSize. simpl. lia. Qed.

Lemma byteZ_range (b : byte) : 0 <= byteZ b < 256.
Proof.
  unfold byteZ. pose proof (Byte.to_N_bounded b) as H.
  split; [apply N2Z.is_nonneg|]. lia.
Qed.

Lemma le32_range (bs : list byte) : 0 <= le32 bs < 2 ^ 32.
Proof.
  unfold le32. change (2 ^ 32) with 4294967296.
  destruct bs as [|b0 [|b1 [|b2 [|b3 rest]]]]; cbn [firstn fold_right];
    try pose proof (byteZ_range b0); try pose proof (byteZ_range b1);
    try pose proof (byteZ_range b2); try pose proof (byteZ_range b3); lia.
Qed.

Lemma firstn_whole (n : Z) (b : Buffer) :
  GetSize b = n -> firstn (Z.to_nat n) b = b.
Proof.
  intros H. apply firstn_all2. unfold GetSize in H. lia.
Qed.

Lemma trace_app_assoc (tr : list event) (a b : event) :
  (tr ++ [a]) ++ [b] = tr ++ [a; b].
Proof. rewrite <- app_assoc. reflexivity. Qed.

Lemma completed_app (a b : list event) :
  completed (a ++ b) = completed a ++ completed b.
Proof.
  induction a as [|[off n|m] a IH]; simpl; [reflexivity | exact IH |].
  rewrite IH. reflexivity.
Qed.

Lemma consumed_app (a b : list event) :
  consumed (a ++ b) = consumed a + consumed b.
Proof.
  induction a as [|[off n|m] a IH]; simpl; lia.
Qed.

(** ** The two phases on the two states *)

Section Phases.

Variable rawData : list byte.
Variable size : Z.

(** The header phase on a parser that awaits a header. *)
Lemma headerPhase_eq (b : Buffer) (t ho mo : Z) (msgs : list NetworkMessage)
    (tr : list event) :
  GetSize b < 8 -> 0 <= t < size -> size < 2 ^ 32 ->
  headerPhase rawData size (mkFrame (AwaitingHeader b t) ho mo msgs tr) =
  (let c := Z.min (size - t) (8 - GetSize b) in
   src <- fetch rawData mo c ;;
   if GetSize b + c =? 8 then
     ho' <- to_int (u32 (8 - GetSize b + u32 mo)) ;;
     Returned (mkFrame (AwaitingPayload (decodeHeader (b ++ src)) []
                                        (u32 (t + 8)))
                       ho' mo msgs (tr ++ [Read mo c]))
   else
     Returned (mkFrame (AwaitingHeader (b ++ src) (u32 (t + (GetSize b + c))))
                       ho mo msgs (tr ++ [Read mo c]))).
Proof.
  intros Hb Ht Hs. pose proof (GetSize_nonneg b) as Hb0.
  unfold headerPhase, AwaitingHeader.
  cbn [self active m_activeBuffer m_firstBuffer m_totalBytesParsed
       messageOffset headerOffset messages trace].
  change (2 ^ 32) with 4294967296 in Hs.
  rewrite to_int_ok by (unfold INT_MIN, INT_MAX; lia).
  cbn [bind]. unfold s_headerSize.
  rewrite (u32_small (size - t)) by (change (2 ^ 32) with 4294967296; lia).
  rewrite (u32_small (8 - GetSize b)) by (change (2 ^ 32) with 4294967296; lia).
  cbv zeta.
  destruct (fetch rawData mo (Z.min (size - t) (8 - GetSize b)))
    as [src|] eqn:Ef; [|reflexivity].
  cbn [bind]. apply fetch_inv in Ef. destruct Ef as (_ & _ & _ & Hsrc & _).
  unfold setActive, setTotal, setHeader, SetData, GetData.
  cbn [m_activeBuffer m_firstBuffer m_secondBuffer m_isHeaderSet m_header
       m_totalBytesParsed active].
  rewrite GetSize_app, Hsrc.
  destruct (GetSize b + Z.min (size - t) (8 - GetSize b) =? 8) eqn:E8.
  - apply Z.eqb_eq in E8.
    replace (firstn 8 (b ++ src)) with (b ++ src).
    2:{ symmetry. apply (firstn_whole 8). rewrite GetSize_app. lia. }
    rewrite E8.
    destruct (to_int (u32 (8 - GetSize b + u32 mo))); reflexivity.
  - reflexivity.
Qed.

(** The payload phase on a parser that awaits a payload. *)
Lemma payloadPhase_eq (h : MessageHeader) (b : Buffer) (t ho mo : Z)
    (msgs : list NetworkMessage) (tr : list event) :
  0 <= messageLength h < 2 ^ 32 -> GetSize b <= messageLength h ->
  payloadPhase rawData size (mkFrame (AwaitingPayload h b t) ho mo msgs tr) =
  (let k := Z.min size (messageLength h - GetSize b) in
   _ <- to_int k ;;
   mo' <- to_int (k + ho) ;;
   src <- fetch rawData ho k ;;
   if GetSize b + k =? messageLength h then
     Returned (mkFrame (AwaitingHeader [] (u32 (t + k))) ho mo'
                       (msgs ++ [mkMessage h (b ++ src)])
                       (tr ++ [Read ho k; Emit (mkMessage h (b ++ src))]))
   else
     Returned (mkFrame (AwaitingPayload h (b ++ src) (u32 (t + k))) ho mo'
                       msgs (tr ++ [Read ho k]))).
Proof.
  intros Hh Hb. pose proof (GetSize_nonneg b) as Hb0.
  unfold payloadPhase, AwaitingPayload. cbn [self active m_activeBuffer
    m_secondBuffer m_header m_totalBytesParsed messageOffset headerOffset
    messages trace].
  rewrite (u32_small (messageLength h - GetSize b)) by lia.
  cbv zeta.
  destruct (to_int (Z.min size (messageLength h - GetSize b))) as [k|] eqn:Ek;
    [|reflexivity].
  apply to_int_inv in Ek. destruct Ek as [-> _]. cbn [bind].
  destruct (to_int (Z.min size (messageLength h - GetSize b) + ho)) as [mo'|];
    [|reflexivity].
  cbn [bind].
  destruct (fetch rawData ho (Z.min size (messageLength h - GetSize b)))
    as [src|] eqn:Ef; [|reflexivity].
  cbn [bind]. apply fetch_inv in Ef. destruct Ef as (_ & _ & _ & Hsrc & _).
  unfold setActive, setTotal, setHeader, SetData, GetData.
  cbn [m_activeBuffer m_firstBuffer m_secondBuffer m_isHeaderSet m_header
       m_totalBytesParsed active].
  rewrite GetSize_app, Hsrc.
  destruct (GetSize b + Z.min size (messageLength h - GetSize b)
            =? messageLength h) eqn:E.
  - apply Z.eqb_eq in E.
    rewrite (firstn_whole (messageLength h))
      by (rewrite GetSize_app; lia).
    rewrite trace_app_assoc. reflexivity.
  - reflexivity.
Qed.

(** The body of the loop on the two states. *)
Lemma iteration_header (b : Buffer) (t ho mo : Z) (msgs : list NetworkMessage)
    (tr : list event) :
  iteration rawData size (mkFrame (AwaitingHeader b t) ho mo msgs tr) =
  (f1 <- headerPhase rawData size
                     (mkFrame (AwaitingHeader b t) ho mo msgs tr) ;;
   if m_isHeaderSet (self f1) && (m_totalBytesParsed (self f1) <? size)
   then payloadPhase rawData size f1 else Returned f1).
Proof. reflexivity. Qed.

Lemma iteration_payload (h : MessageHeader) (b : Buffer) (t ho mo : Z)
    (msgs : list NetworkMessage) (tr : list event) :
  t < size ->
  iteration rawData size (mkFrame (AwaitingPayload h b t) ho mo msgs tr) =
  payloadPhase rawData size (mkFrame (AwaitingPayload h b t) ho mo msgs tr).
Proof.
  intros Ht. unfold iteration.
  cbn [self AwaitingPayload m_isHeaderSet m_totalBytesParsed bind].
  apply Z.ltb_lt in Ht. rewrite Ht. reflexivity.
Qed.

End Phases.

(** ** The loop invariant *)

Ltac arith :=
  unfold INT_MAX, INT_MIN in *;
  change (2 ^ 32) with 4294967296 in *;
  change (2 ^ 31) with 2147483648 in *;
  lia.

Lemma Returned_inj (A : Type) (a b : A) : Returned a = Returned b -> a = b.
Proof. intros H. injection H as H. exact H. Qed.

Lemma Some_Returned_inj (A : Type) (a b : A) :
  Some (Returned a) = Some (Returned b) -> a = b.
Proof. intros H. injection H as H. exact H. Qed.

Ltac ret_inv H f :=
  first [apply Returned_inj in H | apply Some_Returned_inj in H]; subst f.

Ltac bind_inv H x E :=
  match type of H with
  | bind ?o _ = Returned _ =>
      destruct o as [x|] eqn:E; cbn [bind] in H; [|discriminate H]
  end.

Ltac trace_tail :=
  let tr' := fresh "tr" in
  let m := fresh "m" in
  let H := fresh "H" in
  intros (tr' & m & H); cbn [trace self] in H |- *;
  try rewrite <- trace_app_assoc in H;
  apply app_inj_tail in H; destruct H as [_ H];
  first [discriminate H | eexists; reflexivity].

Ltac cursor_tail :=
  unfold carried;
  try match goal with
      | Hp : _ = AwaitingHeader _ _ |- _ => rewrite Hp
      | Hp : _ = AwaitingPayload _ _ _ |- _ => rewrite Hp
      end;
  cbn [trace self AwaitingHeader AwaitingPayload m_isHeaderSet active
       m_activeBuffer m_firstBuffer m_secondBuffer m_totalBytesParsed];
  rewrite ?consumed_app; cbn [consumed]; lia.

(** What one pass through the body does to a frame that satisfies the
    invariant: the invariant holds again; either the loop is over or the
    parser awaits a header with both buffers empty; the cursor has moved
    forward, unless the pass has emitted a message with an empty payload whose
    header it found set; a trace that ends with a [push_back] comes with a
    parser that awaits a header with both buffers empty; and the cursor has
    grown by the bytes copied and the header bytes the parser held. *)
Lemma iteration_ok (rawData : list byte) (size : Z) (f f' : Frame) :
  0 <= size < 2 ^ 32 ->
  frame_ok size f ->
  m_totalBytesParsed (self f) < size ->
  iteration rawData size f = Returned f' ->
  frame_ok size f' /\
  (size <= m_totalBytesParsed (self f') \/
   exists t', self f' = AwaitingHeader [] t') /\
  (m_totalBytesParsed (self f) < m_totalBytesParsed (self f') \/
   m_isHeaderSet (self f) = true /\
   messageLength (m_header (self f)) = 0 /\
   m_totalBytesParsed (self f') = m_totalBytesParsed (self f) /\
   m_isHeaderSet (self f') = false) /\
  (endsOnBoundary (trace f') -> exists t', self f' = AwaitingHeader [] t') /\
  m_totalBytesParsed (self f') - consumed (trace f') =
  m_totalBytesParsed (self f) - consumed (trace f) + carried (self f).
Proof.
  intros Hsize (Hshape & Hho & Hmo & Ht0 & Hpos) Hlt Hit.
  specialize (Hpos Hlt). destruct Hpos as [Hpos Hact].
  destruct f as [p ho mo msgs tr]. cbn [self headerOffset messageOffset] in *.
  destruct Hshape as [(b & Hp & Hb) | (h & b & Hp & Hh & Hb & Hfull)].
  - (* awaiting a header *)
    set (t := m_totalBytesParsed p) in *. rewrite Hp in Hit, Hpos, Hact.
    unfold pos in Hpos. cbn [self AwaitingHeader m_isHeaderSet active
      m_activeBuffer m_firstBuffer messageOffset] in Hpos, Hact.
    specialize (Hact eq_refl).
    pose proof (GetSize_nonneg b) as Hb0.
    assert (Hbt : GetSize b = 0 \/ t = 0).
    { destruct Hact as [-> | ->]; [left; reflexivity | right; reflexivity]. }
    rewrite iteration_header in Hit.
    rewrite headerPhase_eq in Hit by arith.
    cbv zeta in Hit. bind_inv Hit f1 Hf1. bind_inv Hf1 src Hsrc.
    apply fetch_inv in Hsrc. destruct Hsrc as (_ & Hc0 & _ & Hsrc & _).
    destruct (GetSize b + Z.min (size - t) (8 - GetSize b) =? 8) eqn:E8.
    + apply Z.eqb_eq in E8. bind_inv Hf1 ho' Hho'.
      apply to_int_inv in Hho'. destruct Hho' as [-> Hho'].
      rewrite (u32_small mo) in Hho', Hf1 by arith.
      rewrite (u32_small (8 - GetSize b + mo)) in Hho', Hf1 by arith.
      rewrite (u32_small (t + 8)) in Hf1 by arith.
      ret_inv Hf1 f1.
      cbn [self AwaitingPayload m_isHeaderSet m_totalBytesParsed andb] in Hit.
      pose proof (le32_range (skipn 4 (b ++ src))) as Hlen.
      destruct (t + 8 <? size) eqn:Elt.
      * apply Z.ltb_lt in Elt.
        rewrite payloadPhase_eq in Hit
          by (cbn [decodeHeader messageLength]; change (GetSize []) with 0;
              arith).
        cbn [decodeHeader messageLength] in Hit.
        change (GetSize []) with 0 in Hit. rewrite Z.sub_0_r in Hit.
        cbv zeta in Hit. bind_inv Hit k Hk.
        apply to_int_inv in Hk. destruct Hk as [_ Hk].
        bind_inv Hit mo' Hmo'. apply to_int_inv in Hmo'.
        destruct Hmo' as [-> Hmo'].
        bind_inv Hit src2 Hsrc2. apply fetch_inv in Hsrc2.
        destruct Hsrc2 as (_ & Hk0 & _ & Hsrc2 & _).
        destruct (0 + Z.min size (le32 (skipn 4 (b ++ src)))
                  =? le32 (skipn 4 (b ++ src))) eqn:Ek.
        -- apply Z.eqb_eq in Ek.
           rewrite (u32_small (t + 8 + _)) in Hit by arith.
           ret_inv Hit f'.
           cbn [self AwaitingHeader m_totalBytesParsed m_isHeaderSet].
           split; [|split; [|split; [|split; [trace_tail|cursor_tail]]]].
           ++ unfold frame_ok, pos.
              cbn [self AwaitingHeader m_totalBytesParsed m_isHeaderSet
                   headerOffset messageOffset active m_activeBuffer
                   m_firstBuffer].
              repeat split; try arith.
              ** left. exists []. split; [reflexivity|].
                 unfold GetSize; simpl; lia.
              ** intros _. left. reflexivity.
           ++ right. eexists. reflexivity.
           ++ left. arith.
        -- apply Z.eqb_neq in Ek.
           rewrite (u32_small (t + 8 + _)) in Hit by arith.
           ret_inv Hit f'.
           cbn [self AwaitingPayload m_totalBytesParsed m_isHeaderSet].
           split; [|split; [|split; [|split; [trace_tail|cursor_tail]]]].
           ++ unfold frame_ok, pos.
              cbn [self AwaitingPayload m_totalBytesParsed m_isHeaderSet
                   headerOffset messageOffset].
              repeat split; try arith.
              right. exists (decodeHeader (b ++ src)), ([] ++ src2).
              cbn [decodeHeader messageLength app].
              repeat split; try arith.
           ++ left. arith.
           ++ left. arith.
      * apply Z.ltb_ge in Elt.
        ret_inv Hit f'.
        cbn [self AwaitingPayload m_totalBytesParsed m_isHeaderSet].
        split; [|split; [|split; [|split; [trace_tail|cursor_tail]]]].
        -- unfold frame_ok, pos.
           cbn [self AwaitingPayload m_totalBytesParsed m_isHeaderSet
                headerOffset messageOffset].
           repeat split; try arith.
           right. exists (decodeHeader (b ++ src)), [].
           cbn [decodeHeader messageLength].
           change (GetSize []) with 0.
           repeat split; try arith.
        -- left. arith.
        -- left. arith.
    + apply Z.eqb_neq in E8.
      rewrite (u32_small (t + _)) in Hf1 by arith.
      ret_inv Hf1 f1.
      cbn [self AwaitingHeader m_isHeaderSet andb] in Hit.
      ret_inv Hit f'.
      cbn [self AwaitingHeader m_totalBytesParsed m_isHeaderSet].
      split; [|split; [|split; [|split; [trace_tail|cursor_tail]]]].
      * unfold frame_ok, pos.
        cbn [self AwaitingHeader m_totalBytesParsed m_isHeaderSet
             headerOffset messageOffset active m_activeBuffer m_firstBuffer].
        repeat split; try arith.
        left. exists (b ++ src). split; [reflexivity|].
        rewrite GetSize_app. arith.
      * left. arith.
      * left. arith.
  - (* awaiting a payload *)
    set (t := m_totalBytesParsed p) in *. rewrite Hp in Hit, Hpos.
    unfold pos in Hpos.
    cbn [self AwaitingPayload m_isHeaderSet headerOffset] in Hpos.
    pose proof (GetSize_nonneg b) as Hb0.
    rewrite iteration_payload in Hit by exact Hlt.
    rewrite payloadPhase_eq in Hit by assumption.
    cbv zeta in Hit. bind_inv Hit k Hk.
    apply to_int_inv in Hk. destruct Hk as [_ Hk].
    bind_inv Hit mo' Hmo'. apply to_int_inv in Hmo'. destruct Hmo' as [-> Hmo'].
    bind_inv Hit src2 Hsrc2. apply fetch_inv in Hsrc2.
    destruct Hsrc2 as (_ & Hk0 & _ & Hsrc2 & _).
    rewrite Hp. cbn [AwaitingPayload m_isHeaderSet m_header].
    destruct (GetSize b + Z.min size (messageLength h - GetSize b)
              =? messageLength h) eqn:Ek.
    + apply Z.eqb_eq in Ek.
      rewrite (u32_small (t + _)) in Hit by arith.
      ret_inv Hit f'.
      cbn [self AwaitingHeader m_totalBytesParsed m_isHeaderSet].
      split; [|split; [|split; [|split; [trace_tail|cursor_tail]]]].
      * unfold frame_ok, pos.
        cbn [self AwaitingHeader m_totalBytesParsed m_isHeaderSet
             headerOffset messageOffset active m_activeBuffer m_firstBuffer].
        repeat split; try arith.
        -- left. exists []. split; [reflexivity|].
           unfold GetSize; simpl; lia.
        -- intros _. left. reflexivity.
      * right. eexists. reflexivity.
      * destruct (Z.eq_dec (Z.min size (messageLength h - GetSize b)) 0)
          as [Hz | Hnz].
        -- right. repeat split; arith.
        -- left. arith.
    + apply Z.eqb_neq in Ek.
      rewrite (u32_small (t + _)) in Hit by arith.
      ret_inv Hit f'.
      cbn [self AwaitingPayload m_totalBytesParsed m_isHeaderSet].
      split; [|split; [|split; [|split; [trace_tail|cursor_tail]]]].
      * unfold frame_ok, pos.
        cbn [self AwaitingPayload m_totalBytesParsed m_isHeaderSet
             headerOffset messageOffset].
        repeat split; try arith.
        right. exists h, (b ++ src2).
        rewrite GetSize_app.
        repeat split; try arith.
      * left. arith.
      * left. arith.
Qed.

(** ** The loop *)

Section Loop.

Variable rawData : list byte.
Variable size : Z.

Lemma loop_done (n : nat) (f : Frame) :
  size <= m_totalBytesParsed (self f) ->
  loop rawData size n f = Some (Returned f).
Proof.
  intros H. apply Z.ltb_ge in H. destruct n; simpl; rewrite H; reflexivity.
Qed.

Lemma loop_step (n : nat) (f : Frame) :
  m_totalBytesParsed (self f) < size ->
  loop rawData size (S n) f =
  match iteration rawData size f with
  | Returned f' => loop rawData size n f'
  | Undefined => Some Undefined
  end.
Proof.
  intros H. apply Z.ltb_lt in H. simpl. rewrite H. reflexivity.
Qed.

Lemma loop_out_of_fuel (f : Frame) :
  m_totalBytesParsed (self f) < size -> loop rawData size 0 f = None.
Proof.
  intros H. apply Z.ltb_lt in H. simpl. rewrite H. reflexivity.
Qed.

(** More fuel does not change the result of a run that had enough. *)
Lemma loop_fuel_mono (n : nat) :
  forall (f : Frame) (o : outcome Frame),
  loop rawData size n f = Some o ->
  forall m, (n <= m)%nat -> loop rawData size m f = Some o.
Proof.
  induction n as [|n IH]; intros f o H m Hm.
  - destruct (Z_lt_ge_dec (m_totalBytesParsed (self f)) size) as [Hlt | Hge].
    + rewrite loop_out_of_fuel in H by exact Hlt. discriminate H.
    + rewrite loop_done in H |- * by lia. exact H.
  - destruct (Z_lt_ge_dec (m_totalBytesParsed (self f)) size) as [Hlt | Hge].
    + destruct m as [|m]; [lia|].
      rewrite loop_step in H |- * by exact Hlt.
      destruct (iteration rawData size f) as [f'|]; [|exact H].
      apply IH; [exact H | lia].
    + rewrite loop_done in H |- * by lia. exact H.
Qed.

(** The loop is over when the cursor has reached [size]. *)
Lemma loop_exit (n : nat) :
  forall f f', loop rawData size n f = Some (Returned f') ->
  size <= m_totalBytesParsed (self f').
Proof.
  induction n as [|n IH]; intros f f' H;
    destruct (Z_lt_ge_dec (m_totalBytesParsed (self f)) size) as [Hlt | Hge].
  - rewrite loop_out_of_fuel in H by exact Hlt. discriminate H.
  - rewrite loop_done in H by lia. ret_inv H f'. lia.
  - rewrite loop_step in H by exact Hlt.
    destruct (iteration rawData size f) as [f1|]; [|discriminate H].
    apply (IH f1). exact H.
  - rewrite loop_done in H by lia. ret_inv H f'. lia.
Qed.

(** The final frame of a run is one of the frames it visits. *)
Lemma loop_visits (n : nat) :
  forall f0 f f', visits rawData size f0 f ->
  loop rawData size n f = Some (Returned f') ->
  visits rawData size f0 f'.
Proof.
  induction n as [|n IH]; intros f0 f f' Hv H;
    destruct (Z_lt_ge_dec (m_totalBytesParsed (self f)) size) as [Hlt | Hge].
  - rewrite loop_out_of_fuel in H by exact Hlt. discriminate H.
  - rewrite loop_done in H by lia. ret_inv H f'. exact Hv.
  - rewrite loop_step in H by exact Hlt.
    destruct (iteration rawData size f) as [f1|] eqn:E; [|discriminate H].
    apply (IH f0 f1); [|exact H].
    apply (visits_next _ _ _ f); assumption.
  - rewrite loop_done in H by lia. ret_inv H f'. exact Hv.
Qed.

(** A property that the body keeps holds on every frame the loop visits. *)
Lemma visits_invariant (P : Frame -> Prop) :
  (forall f f', P f -> m_totalBytesParsed (self f) < size ->
                iteration rawData size f = Returned f' -> P f') ->
  forall f0 f, P f0 -> visits rawData size f0 f -> P f.
Proof.
  intros Hstep f0 f H0 Hv. induction Hv as [|f f' _ IH Hlt Hit].
  - exact H0.
  - apply (Hstep f f'); assumption.
Qed.

Hypothesis Hsize : 0 <= size < 2 ^ 32.

Lemma visits_frame_ok (f0 f : Frame) :
  frame_ok size f0 -> visits rawData size f0 f -> frame_ok size f.
Proof.
  apply visits_invariant. intros g g' Hg Hlt Hit.
  apply (iteration_ok rawData size g g' Hsize Hg Hlt Hit).
Qed.

Lemma visits_boundary_ok (f0 f : Frame) :
  frame_ok size f0 -> boundary_ok f0 ->
  visits rawData size f0 f -> boundary_ok f.
Proof.
  intros Hok Hb Hv.
  destruct Hv as [|f f' Hv Hlt Hit]; [exact Hb|].
  pose proof (visits_frame_ok f0 f Hok Hv) as Hf.
  destruct (iteration_ok rawData size f f' Hsize Hf Hlt Hit)
    as (_ & _ & _ & Hend & _).
  exact Hend.
Qed.

(** The budget of a frame bounds the iterations left. *)
Lemma loop_fuel_enough (n : nat) :
  forall f, frame_ok size f ->
  (m_totalBytesParsed (self f) < size -> budget size f <= Z.of_nat n) ->
  exists o, loop rawData size n f = Some o.
Proof.
  induction n as [|n IH]; intros f Hok Hbud;
    destruct (Z_lt_ge_dec (m_totalBytesParsed (self f)) size) as [Hlt | Hge].
  - exfalso. specialize (Hbud Hlt). unfold budget in Hbud.
    destruct (m_isHeaderSet (self f)); simpl in Hbud; lia.
  - rewrite loop_done by lia. eexists; reflexivity.
  - rewrite loop_step by exact Hlt. specialize (Hbud Hlt).
    destruct (iteration rawData size f) as [f'|] eqn:Hit;
      [|eexists; reflexivity].
    destruct (iteration_ok rawData size f f' Hsize Hok Hlt Hit)
      as (Hok' & Hnext & Hprog & _).
    apply IH; [exact Hok'|]. intros Hlt'.
    destruct Hnext as [Hover | (t' & Ht')]; [lia|].
    unfold budget in *. rewrite Ht' in *.
    cbn [AwaitingHeader m_isHeaderSet m_totalBytesParsed] in *.
    destruct Hprog as [Hup | (Hset & _ & Hsame & _)].
    + destruct (m_isHeaderSet (self f)); lia.
    + rewrite Hset in Hbud. lia.
  - rewrite loop_done by lia. eexists; reflexivity.
Qed.

End Loop.

(** ** The object between calls *)

Lemma shape_setTotal (p : MessageParser) (t : Z) :
  shape p -> shape (setTotal p t).
Proof.
  intros [(b & Hp & Hb) | (h & b & Hp & Hrest)]; rewrite Hp.
  - left. exists b. split; [reflexivity | exact Hb].
  - right. exists h, b. split; [reflexivity | exact Hrest].
Qed.

Lemma idle_fresh : idle fresh.
Proof.
  split; [|reflexivity]. left. exists []. split; [reflexivity|].
  unfold GetSize; simpl; lia.
Qed.

Lemma idle_frame_ok (size : Z) (p : MessageParser)
    (msgs : list NetworkMessage) :
  idle p -> frame_ok size (mkFrame p 0 0 msgs []).
Proof.
  intros [Hs Ht]. unfold frame_ok, pos.
  cbn [self headerOffset messageOffset]. rewrite Ht.
  repeat split; try assumption; try arith.
  destruct (m_isHeaderSet p); lia.
Qed.

Lemma ParseMessage_inv (p : MessageParser) (rawData : list byte) (size : Z)
    (msgs : list NetworkMessage) (r : CallResult) :
  ParseMessage p rawData size msgs = Some (Returned r) ->
  exists f, loop rawData size (S (Z.to_nat size)) (mkFrame p 0 0 msgs [])
            = Some (Returned f) /\
            r = mkResult (setTotal (self f) 0) (messages f)
                         (negb (isEmpty (messages f))) (trace f).
Proof.
  unfold ParseMessage, ParseMessage_fuel. intros H.
  destruct (loop rawData size (S (Z.to_nat size)) (mkFrame p 0 0 msgs []))
    as [[f|]|]; try discriminate H.
  exists f. split; [reflexivity|]. injection H as H. symmetry. exact H.
Qed.

Lemma ParseMessage_idle (p : MessageParser) (rawData : list byte) (size : Z)
    (msgs : list NetworkMessage) (r : CallResult) :
  0 <= size < 2 ^ 32 -> idle p ->
  ParseMessage p rawData size msgs = Some (Returned r) ->
  idle (parser r).
Proof.
  intros Hsize Hp H. apply ParseMessage_inv in H.
  destruct H as (f & Hloop & ->). cbn [parser].
  split; [|reflexivity]. apply shape_setTotal.
  apply (loop_visits rawData size _ _ _ f (visits_start _ _ _)) in Hloop.
  apply (visits_frame_ok rawData size Hsize _ f (idle_frame_ok size p msgs Hp))
    in Hloop.
  apply Hloop.
Qed.

Lemma reachable_idle (p : MessageParser) : reachable p -> idle p.
Proof.
  induction 1 as [|p rawData size msgs r _ IH Hsize Hcall].
  - exact idle_fresh.
  - apply (ParseMessage_idle p rawData size msgs r Hsize IH Hcall).
Qed.

(** ** Events and the output vector *)

Lemma grows_refl (f : Frame) : grows f f.
Proof. exists []. rewrite !app_nil_r. split; reflexivity. Qed.

Lemma grows_trans (f g h : Frame) : grows f g -> grows g h -> grows f h.
Proof.
  intros (e1 & Ht1 & Hm1) (e2 & Ht2 & Hm2). exists (e1 ++ e2).
  rewrite Ht2, Hm2, Ht1, Hm1, completed_app, !app_assoc. split; reflexivity.
Qed.

Section Growth.

Variable rawData : list byte.
Variable size : Z.

Lemma headerPhase_grows (f f' : Frame) :
  headerPhase rawData size f = Returned f' -> grows f f'.
Proof.
  unfold headerPhase. intros H.
  bind_inv H startSize Es. bind_inv H src Ef. cbv zeta in H.
  match type of H with
  | (if ?c then _ else _) = _ => destruct c
  end.
  - bind_inv H ho' Eh. ret_inv H f'.
    eexists. cbn [trace messages]. split; [reflexivity|].
    cbn [completed]. rewrite app_nil_r. reflexivity.
  - ret_inv H f'.
    eexists. cbn [trace messages]. split; [reflexivity|].
    cbn [completed]. rewrite app_nil_r. reflexivity.
Qed.

Lemma payloadPhase_grows (f f' : Frame) :
  payloadPhase rawData size f = Returned f' -> grows f f'.
Proof.
  unfold payloadPhase. intros H. cbv zeta in H.
  bind_inv H sizeToCopy Es. bind_inv H mo Em. bind_inv H src Ef.
  match type of H with
  | (if ?c then _ else _) = _ => destruct c
  end.
  - ret_inv H f'.
    eexists. cbn [trace messages]. rewrite trace_app_assoc.
    split; reflexivity.
  - ret_inv H f'.
    eexists. cbn [trace messages]. split; [reflexivity|].
    cbn [completed]. rewrite app_nil_r. reflexivity.
Qed.

Lemma iteration_grows (f f' : Frame) :
  iteration rawData size f = Returned f' -> grows f f'.
Proof.
  unfold iteration. intros H. bind_inv H f1 E1.
  assert (H1 : grows f f1).
  { destruct (m_isHeaderSet (self f)).
    - ret_inv E1 f1. apply grows_refl.
    - apply headerPhase_grows. exact E1. }
  destruct (m_isHeaderSet (self f1) && (m_totalBytesParsed (self f1) <? size)).
  - apply (grows_trans f f1 f'); [exact H1|].
    apply payloadPhase_grows. exact H.
  - ret_inv H f'. exact H1.
Qed.

Lemma loop_grows (n : nat) :
  forall f f', loop rawData size n f = Some (Returned f') -> grows f f'.
Proof.
  induction n as [|n IH]; intros f f' H;
    destruct (Z_lt_ge_dec (m_totalBytesParsed (self f)) size) as [Hlt | Hge].
  - rewrite loop_out_of_fuel in H by exact Hlt. discriminate H.
  - rewrite loop_done in H by lia. ret_inv H f'. apply grows_refl.
  - rewrite loop_step in H by exact Hlt.
    destruct (iteration rawData size f) as [f1|] eqn:E; [|discriminate H].
    apply (grows_trans f f1 f'); [|apply IH; exact H].
    apply iteration_grows. exact E.
  - rewrite loop_done in H by lia. ret_inv H f'. apply grows_refl.
Qed.

End Growth.

Lemma isEmpty_false (A : Type) (l : list A) :
  negb (isEmpty l) = true <-> l <> [].
Proof.
  destruct l; simpl; split; intros H; congruence.
Qed.

(** ** Single calls *)

Lemma fetch_at (a c rest : list byte) :
  fetch (a ++ c ++ rest) (GetSize a) (GetSize c) = Returned c.
Proof.
  unfold GetSize. rewrite fetch_ok; try lia.
  - rewrite !Nat2Z.id. f_equal.
    rewrite skipn_app, skipn_all, Nat.sub_diag. simpl.
    rewrite firstn_app, firstn_all, Nat.sub_diag. simpl.
    apply app_nil_r.
  - rewrite !length_app. lia.
Qed.

Lemma fetch_prefix (c rest : list byte) :
  fetch (c ++ rest) 0 (GetSize c) = Returned c.
Proof. exact (fetch_at [] c rest). Qed.

Lemma fetch_nothing (raw : list byte) (off : Z) :
  0 <= off <= Z.of_nat (length raw) -> fetch raw off 0 = Returned [].
Proof.
  intros H. rewrite fetch_ok by lia. reflexivity.
Qed.

(** A call whose first pass through the body takes the cursor to [size]. *)
Lemma call_of_one_iteration (p : MessageParser) (rawData : list byte)
    (size : Z) (msgs : list NetworkMessage) (f1 : Frame) :
  m_totalBytesParsed p = 0 -> 0 < size ->
  iteration rawData size (mkFrame p 0 0 msgs []) = Returned f1 ->
  size <= m_totalBytesParsed (self f1) ->
  ParseMessage p rawData size msgs =
  Some (Returned (mkResult (setTotal (self f1) 0) (messages f1)
                           (negb (isEmpty (messages f1))) (trace f1))).
Proof.
  intros Hp Hs Hit Hend. unfold ParseMessage, ParseMessage_fuel.
  rewrite loop_step by (cbn [self]; lia).
  rewrite Hit, loop_done by exact Hend. reflexivity.
Qed.

Section SingleCalls.

Variables (c rest : list byte) (msgs : list NetworkMessage).

(** Header bytes that do not complete the header. *)
Lemma call_header_partial (b : Buffer) :
  0 < GetSize c -> GetSize c < 2 ^ 32 -> GetSize b + GetSize c < 8 ->
  ParseMessage (AwaitingHeader b 0) (c ++ rest) (GetSize c) msgs =
  Some (Returned (mkResult (AwaitingHeader (b ++ c) 0) msgs
                           (negb (isEmpty msgs)) [Read 0 (GetSize c)])).
Proof.
  intros Hn Hn32 Hb. pose proof (GetSize_nonneg b) as Hb0.
  rewrite (call_of_one_iteration _ _ _ _
    (mkFrame (AwaitingHeader (b ++ c) (GetSize b + GetSize c)) 0 0 msgs
             [Read 0 (GetSize c)]));
    try reflexivity; try (cbn [self AwaitingHeader m_totalBytesParsed]; lia).
  rewrite iteration_header, headerPhase_eq by lia. cbv zeta.
  replace (Z.min (GetSize c - 0) (8 - GetSize b)) with (GetSize c) by lia.
  rewrite fetch_prefix. cbn [bind].
  replace (GetSize b + GetSize c =? 8) with false
    by (symmetry; apply Z.eqb_neq; lia).
  rewrite (u32_small (0 + _)) by arith.
  cbn [bind self AwaitingHeader m_isHeaderSet andb app]. reflexivity.
Qed.

(** The header bytes that complete the header, and nothing after them. *)
Lemma call_header_complete (b : Buffer) :
  0 < GetSize c -> GetSize b + GetSize c = 8 ->
  ParseMessage (AwaitingHeader b 0) (c ++ rest) (GetSize c) msgs =
  Some (Returned (mkResult (AwaitingPayload (decodeHeader (b ++ c)) [] 0) msgs
                           (negb (isEmpty msgs)) [Read 0 (GetSize c)])).
Proof.
  intros Hn Hb. pose proof (GetSize_nonneg b) as Hb0.
  rewrite (call_of_one_iteration _ _ _ _
    (mkFrame (AwaitingPayload (decodeHeader (b ++ c)) [] 8) (GetSize c) 0 msgs
             [Read 0 (GetSize c)]));
    try reflexivity; try (cbn [self AwaitingPayload m_totalBytesParsed]; lia).
  rewrite iteration_header, headerPhase_eq by arith. cbv zeta.
  replace (Z.min (GetSize c - 0) (8 - GetSize b)) with (GetSize c) by lia.
  rewrite fetch_prefix. cbn [bind].
  replace (GetSize b + GetSize c =? 8) with true
    by (symmetry; apply Z.eqb_eq; lia).
  rewrite (u32_small 0), (u32_small (8 - _ + 0)), (u32_small (0 + 8)),
    to_int_ok by arith.
  cbn [bind self AwaitingPayload m_isHeaderSet m_totalBytesParsed andb app].
  change (0 + 8) with 8.
  replace (8 <? GetSize c) with false by (symmetry; apply Z.ltb_ge; lia).
  replace (8 - GetSize b + 0) with (GetSize c) by lia. reflexivity.
Qed.

(** Payload bytes that do not complete the payload. *)
Lemma call_payload_partial (h : MessageHeader) (b : Buffer) :
  0 < GetSize c <= INT_MAX -> 0 <= messageLength h < 2 ^ 32 ->
  GetSize b + GetSize c < messageLength h ->
  ParseMessage (AwaitingPayload h b 0) (c ++ rest) (GetSize c) msgs =
  Some (Returned (mkResult (AwaitingPayload h (b ++ c) 0) msgs
                           (negb (isEmpty msgs)) [Read 0 (GetSize c)])).
Proof.
  intros Hn Hh Hb. pose proof (GetSize_nonneg b) as Hb0.
  rewrite (call_of_one_iteration _ _ _ _
    (mkFrame (AwaitingPayload h (b ++ c) (GetSize c)) 0 (GetSize c) msgs
             [Read 0 (GetSize c)]));
    try reflexivity; try (cbn [self AwaitingPayload m_totalBytesParsed]; lia).
  rewrite iteration_payload, payloadPhase_eq by lia. cbv zeta.
  replace (Z.min (GetSize c) (messageLength h - GetSize b)) with (GetSize c)
    by lia.
  rewrite to_int_ok by arith. rewrite to_int_ok by arith.
  rewrite fetch_prefix. cbn [bind].
  replace (GetSize b + GetSize c =? messageLength h) with false
    by (symmetry; apply Z.eqb_neq; lia).
  rewrite (u32_small (0 + GetSize c)) by arith.
  replace ((GetSize c) + 0) with (GetSize c) by lia. reflexivity.
Qed.

(** The payload bytes that complete the payload, and nothing after them. *)
Lemma call_payload_complete (h : MessageHeader) (b : Buffer) :
  0 < GetSize c <= INT_MAX -> 0 <= messageLength h < 2 ^ 32 ->
  GetSize b + GetSize c = messageLength h ->
  ParseMessage (AwaitingPayload h b 0) (c ++ rest) (GetSize c) msgs =
  Some (Returned (mkResult fresh (msgs ++ [mkMessage h (b ++ c)]) true
                           [Read 0 (GetSize c); Emit (mkMessage h (b ++ c))])).
Proof.
  intros Hn Hh Hb. pose proof (GetSize_nonneg b) as Hb0.
  rewrite (call_of_one_iteration _ _ _ _
    (mkFrame (AwaitingHeader [] (GetSize c)) 0 (GetSize c)
             (msgs ++ [mkMessage h (b ++ c)])
             [Read 0 (GetSize c); Emit (mkMessage h (b ++ c))]));
    try (cbn [self AwaitingHeader m_totalBytesParsed]; lia).
  - cbn [self messages trace]. f_equal. f_equal. f_equal.
    destruct msgs; reflexivity.
  - reflexivity.
  - rewrite iteration_payload, payloadPhase_eq by lia. cbv zeta.
    replace (Z.min (GetSize c) (messageLength h - GetSize b)) with (GetSize c)
      by lia.
    rewrite to_int_ok by arith. rewrite to_int_ok by arith.
    rewrite fetch_prefix. cbn [bind].
    replace (GetSize b + GetSize c =? messageLength h) with true
      by (symmetry; apply Z.eqb_eq; lia).
    rewrite (u32_small (0 + GetSize c)) by arith.
    replace ((GetSize c) + 0) with (GetSize c) by lia. reflexivity.
Qed.

End SingleCalls.

(** The same calls on a buffer that holds the chunk and nothing else. *)
Section ExactCalls.

Variables (c : list byte) (msgs : list NetworkMessage).

Lemma exact_header_partial (b : Buffer) :
  0 < GetSize c -> GetSize c < 2 ^ 32 -> GetSize b + GetSize c < 8 ->
  ParseMessage (AwaitingHeader b 0) c (GetSize c) msgs =
  Some (Returned (mkResult (AwaitingHeader (b ++ c) 0) msgs
                           (negb (isEmpty msgs)) [Read 0 (GetSize c)])).
Proof.
  intros H1 H2 H3. pose proof (call_header_partial c [] msgs b H1 H2 H3) as H.
  rewrite app_nil_r in H. exact H.
Qed.

Lemma exact_header_complete (b : Buffer) :
  0 < GetSize c -> GetSize b + GetSize c = 8 ->
  ParseMessage (AwaitingHeader b 0) c (GetSize c) msgs =
  Some (Returned (mkResult (AwaitingPayload (decodeHeader (b ++ c)) [] 0) msgs
                           (negb (isEmpty msgs)) [Read 0 (GetSize c)])).
Proof.
  intros H1 H2. pose proof (call_header_complete c [] msgs b H1 H2) as H.
  rewrite app_nil_r in H. exact H.
Qed.

Lemma exact_payload_partial (h : MessageHeader) (b : Buffer) :
  0 < GetSize c <= INT_MAX -> 0 <= messageLength h < 2 ^ 32 ->
  GetSize b + GetSize c < messageLength h ->
  ParseMessage (AwaitingPayload h b 0) c (GetSize c) msgs =
  Some (Returned (mkResult (AwaitingPayload h (b ++ c) 0) msgs
                           (negb (isEmpty msgs)) [Read 0 (GetSize c)])).
Proof.
  intros H1 H2 H3.
  pose proof (call_payload_partial c [] msgs h b H1 H2 H3) as H.
  rewrite app_nil_r in H. exact H.
Qed.

Lemma exact_payload_complete (h : MessageHeader) (b : Buffer) :
  0 < GetSize c <= INT_MAX -> 0 <= messageLength h < 2 ^ 32 ->
  GetSize b + GetSize c = messageLength h ->
  ParseMessage (AwaitingPayload h b 0) c (GetSize c) msgs =
  Some (Returned (mkResult fresh (msgs ++ [mkMessage h (b ++ c)]) true
                   [Read 0 (GetSize c); Emit (mkMessage h (b ++ c))])).
Proof.
  intros H1 H2 H3.
  pose proof (call_payload_complete c [] msgs h b H1 H2 H3) as H.
  rewrite app_nil_r in H. exact H.
Qed.

End ExactCalls.

(** A header and its payload in one pass through the body: the parser awaits
    a header with empty buffers, the header starts at [messageOffset] and the
    chunk goes on after it. *)
Lemma iteration_whole_message (pre hdr payload rest : list byte) (size t ho : Z)
    (msgs : list NetworkMessage) (tr : list event) :
  let h := decodeHeader hdr in
  let len := GetSize payload in
  let mo := GetSize pre in
  let m := mkMessage h payload in
  GetSize hdr = 8 -> messageLength h = len ->
  0 <= t -> t + 8 < size -> size < 2 ^ 32 -> len <= size ->
  mo + 8 + len <= INT_MAX -> t + 8 + len < 2 ^ 32 ->
  iteration (pre ++ hdr ++ payload ++ rest) size
            (mkFrame (AwaitingHeader [] t) ho mo msgs tr) =
  Returned (mkFrame (AwaitingHeader [] (t + 8 + len)) (8 + mo) (len + (8 + mo))
                    (msgs ++ [m])
                    (tr ++ [Read mo 8; Read (8 + mo) len; Emit m])).
Proof.
  intros h len mo m Hhdr Hlen Ht Hts Hs Hls Hint H32. subst h len mo m.
  pose proof (GetSize_nonneg pre) as Hpre.
  pose proof (GetSize_nonneg payload) as Hpay.
  rewrite iteration_header, headerPhase_eq
    by (change (GetSize []) with 0; lia).
  cbv zeta. change (GetSize []) with 0.
  replace (Z.min (size - t) (8 - 0)) with (GetSize hdr) by lia.
  rewrite fetch_at. cbn [bind app]. rewrite Hhdr. change (0 + 8 =? 8) with true.
  cbv iota.
  rewrite (u32_small (GetSize pre)), (u32_small (8 - 0 + _)),
    (u32_small (t + 8)), to_int_ok by arith.
  cbn [bind self AwaitingPayload m_isHeaderSet m_totalBytesParsed andb].
  replace (t + 8 <? size) with true by (symmetry; apply Z.ltb_lt; lia).
  rewrite payloadPhase_eq
    by (rewrite Hlen; change (GetSize []) with 0; arith).
  cbv zeta. rewrite Hlen. change (GetSize []) with 0.
  replace (Z.min size (GetSize payload - 0)) with (GetSize payload) by lia.
  rewrite to_int_ok by arith. rewrite to_int_ok by arith. cbn [bind].
  replace (8 - 0 + GetSize pre) with (GetSize (pre ++ hdr))
    by (rewrite GetSize_app; lia).
  replace (pre ++ hdr ++ payload ++ rest) with ((pre ++ hdr) ++ payload ++ rest)
    by (rewrite <- app_assoc; reflexivity).
  rewrite fetch_at. cbn [bind app].
  rewrite Z.eqb_refl, (u32_small (t + 8 + _)) by arith.
  rewrite GetSize_app, Hhdr.
  replace (GetSize pre + 8) with (8 + GetSize pre) by lia.
  rewrite <- app_assoc. reflexivity.
Qed.

Lemma feed_cons (p : MessageParser) (c : list byte) (rest : list (list byte))
    (msgs : list NetworkMessage) (flags : list bool) :
  feed p (c :: rest) msgs flags =
  match ParseMessage p c (GetSize c) msgs with
  | Some (Returned r) =>
      feed (parser r) rest (output r) (flags ++ [hasMessages r])
  | Some Undefined => Some Undefined
  | None => None
  end.
Proof. reflexivity. Qed.

(** A header and its payload, and nothing else, in one call on a new
    parser. *)
Lemma exact_whole_message (hdr payload : list byte)
    (msgs : list NetworkMessage) :
  let m := mkMessage (decodeHeader hdr) payload in
  GetSize hdr = 8 -> messageLength (decodeHeader hdr) = GetSize payload ->
  0 < GetSize payload -> 8 + GetSize payload <= INT_MAX ->
  ParseMessage fresh (hdr ++ payload) (8 + GetSize payload) msgs =
  Some (Returned (mkResult fresh (msgs ++ [m]) true
                   [Read 0 8; Read 8 (GetSize payload); Emit m])).
Proof.
  intros m Hhdr Hlen Hpos Hint.
  pose proof (iteration_whole_message [] hdr payload [] (8 + GetSize payload)
                0 0 msgs [] Hhdr Hlen) as Hit.
  cbn [app] in Hit. rewrite app_nil_r in Hit. change (GetSize []) with 0 in Hit.
  assert (Hit' := Hit ltac:(lia) ltac:(lia) ltac:(arith) ltac:(lia)
                      ltac:(arith) ltac:(arith)).
  clear Hit.
  assert (Hsz : 0 < 8 + GetSize payload) by lia.
  change fresh with (AwaitingHeader [] 0).
  rewrite (call_of_one_iteration (AwaitingHeader [] 0) _ _ _ _ eq_refl Hsz
             Hit');
    [|cbn [self AwaitingHeader m_totalBytesParsed]; lia].
  cbn [self messages trace]. fold m.
  replace (negb (isEmpty (msgs ++ [m]))) with true
    by (destruct msgs; reflexivity).
  reflexivity.
Qed.

Lemma trace_nil_not_boundary : ~ endsOnBoundary [].
Proof.
  intros (tr & m & H). symmetry in H. apply app_eq_nil in H.
  destruct H as [_ H]. discriminate H.
Qed.

(** The first pass of a call on a parser that holds the header of a message
    with an empty payload. *)
Lemma iteration_pending_empty (h : MessageHeader) (rawData : list byte)
    (size : Z) (msgs : list NetworkMessage) :
  messageLength h = 0 -> 0 < size ->
  iteration rawData size (mkFrame (AwaitingPayload h [] 0) 0 0 msgs []) =
  Returned (mkFrame (AwaitingHeader [] 0) 0 0 (msgs ++ [mkMessage h []])
                    [Read 0 0; Emit (mkMessage h [])]).
Proof.
  intros Hh Hs.
  rewrite iteration_payload, payloadPhase_eq
    by (try rewrite Hh; change (GetSize []) with 0; lia).
  cbv zeta. rewrite Hh. change (GetSize []) with 0.
  replace (Z.min size (0 - 0)) with 0 by lia.
  rewrite fetch_nothing by lia. reflexivity.
Qed.

(** What a call emits when its first pass through the body does. *)
Lemma call_first_iteration (p : MessageParser) (rawData : list byte)
    (size : Z) (msgs : list NetworkMessage) (f1 : Frame) (r : CallResult) :
  m_totalBytesParsed p = 0 -> 0 < size ->
  iteration rawData size (mkFrame p 0 0 msgs []) = Returned f1 ->
  ParseMessage p rawData size msgs = Some (Returned r) ->
  exists evs, events r = trace f1 ++ evs /\
              output r = messages f1 ++ completed evs.
Proof.
  intros Hp Hs Hit Hcall. apply ParseMessage_inv in Hcall.
  destruct Hcall as (f & Hloop & ->). cbn [events output].
  rewrite loop_step in Hloop by (cbn [self]; lia). rewrite Hit in Hloop.
  apply loop_grows in Hloop. exact Hloop.
Qed.

(** ** Calls that stay within defined behaviour *)

(** With a chunk of at most 2^30 bytes in memory that goes on for as many
    bytes again, no copy leaves the memory and no [int] overflows: a pass
    through the body returns. *)
Lemma iteration_returns (rawData : list byte) (size : Z) (f : Frame) :
  0 <= size <= 2 ^ 30 ->
  2 * size <= Z.of_nat (length rawData) ->
  frame_ok size f ->
  pos f <= m_totalBytesParsed (self f) ->
  m_totalBytesParsed (self f) < size ->
  exists f', iteration rawData size f = Returned f' /\
             pos f' <= m_totalBytesParsed (self f').
Proof.
  intros Hsize Hmem (Hshape & Hho & Hmo & Ht0 & Hpos) Hle Hlt.
  change (2 ^ 30) with 1073741824 in Hsize.
  destruct (Hpos Hlt) as [_ Hact]. clear Hpos.
  destruct f as [p ho mo msgs tr]. unfold pos in *.
  cbn [self headerOffset messageOffset] in *.
  destruct Hshape as [(b & Hp & Hb) | (h & b & Hp & Hh & Hb & Hfull)].
  - set (t := m_totalBytesParsed p) in *. rewrite Hp in Hle, Hact |- *.
    cbn [AwaitingHeader m_isHeaderSet active m_activeBuffer m_firstBuffer]
      in Hle, Hact.
    specialize (Hact eq_refl).
    pose proof (GetSize_nonneg b) as Hb0.
    assert (Hbt : GetSize b = 0 \/ t = 0).
    { destruct Hact as [-> | ->]; [left; reflexivity | right; reflexivity]. }
    rewrite iteration_header, headerPhase_eq by arith. cbv zeta.
    rewrite fetch_ok by lia. cbn [bind].
    set (src := firstn _ _).
    destruct (GetSize b + Z.min (size - t) (8 - GetSize b) =? 8) eqn:E8.
    + apply Z.eqb_eq in E8.
      rewrite (u32_small mo), (u32_small (8 - GetSize b + mo)),
        (u32_small (t + 8)), to_int_ok by arith.
      cbn [bind self AwaitingPayload m_isHeaderSet m_totalBytesParsed andb].
      pose proof (le32_range (skipn 4 (b ++ src))) as Hlen.
      destruct (t + 8 <? size) eqn:Elt.
      * apply Z.ltb_lt in Elt.
        rewrite payloadPhase_eq
          by (cbn [decodeHeader messageLength]; change (GetSize []) with 0;
              arith).
        cbn [decodeHeader messageLength]. change (GetSize []) with 0.
        cbv zeta. rewrite Z.sub_0_r.
        rewrite to_int_ok by arith. rewrite to_int_ok by arith.
        rewrite fetch_ok by lia. cbn [bind].
        rewrite (u32_small (t + 8 + _)) by arith.
        destruct (0 + Z.min size (le32 (skipn 4 (b ++ src)))
                  =? le32 (skipn 4 (b ++ src)));
          eexists; (split; [reflexivity|]);
          cbn [self AwaitingHeader AwaitingPayload m_isHeaderSet
               m_totalBytesParsed headerOffset messageOffset]; lia.
      * eexists. split; [reflexivity|].
        cbn [self AwaitingPayload m_isHeaderSet m_totalBytesParsed
             headerOffset]. lia.
    + apply Z.eqb_neq in E8.
      rewrite (u32_small (t + _)) by arith.
      cbn [bind self AwaitingHeader m_isHeaderSet andb].
      eexists. split; [reflexivity|].
      cbn [self AwaitingHeader m_isHeaderSet m_totalBytesParsed messageOffset].
      lia.
  - set (t := m_totalBytesParsed p) in *. rewrite Hp in Hle |- *.
    cbn [AwaitingPayload m_isHeaderSet] in Hle.
    pose proof (GetSize_nonneg b) as Hb0.
    rewrite iteration_payload, payloadPhase_eq by assumption. cbv zeta.
    rewrite to_int_ok by arith. rewrite to_int_ok by arith.
    rewrite fetch_ok by lia. cbn [bind].
    rewrite (u32_small (t + _)) by arith.
    destruct (GetSize b + Z.min size (messageLength h - GetSize b)
              =? messageLength h);
      eexists; (split; [reflexivity|]);
      cbn [self AwaitingHeader AwaitingPayload m_isHeaderSet
           m_totalBytesParsed headerOffset messageOffset]; lia.
Qed.

Lemma loop_returns (rawData : list byte) (size : Z) (n : nat) :
  0 <= size <= 2 ^ 30 ->
  2 * size <= Z.of_nat (length rawData) ->
  forall f, frame_ok size f -> pos f <= m_totalBytesParsed (self f) ->
  loop rawData size n f <> Some Undefined.
Proof.
  intros Hsize Hmem.
  assert (Hs32 : 0 <= size < 2 ^ 32)
    by (change (2 ^ 30) with 1073741824 in Hsize; arith).
  induction n as [|n IH]; intros f Hok Hle;
    destruct (Z_lt_ge_dec (m_totalBytesParsed (self f)) size) as [Hlt | Hge].
  - rewrite loop_out_of_fuel by exact Hlt. discriminate.
  - rewrite loop_done by lia. discriminate.
  - rewrite loop_step by exact Hlt.
    destruct (iteration_returns rawData size f Hsize Hmem Hok Hle Hlt)
      as (f' & Hit & Hle').
    rewrite Hit. apply IH; [|exact Hle'].
    apply (iteration_ok rawData size f f' Hs32 Hok Hlt Hit).
  - rewrite loop_done by lia. discriminate.
Qed.

(** ** Whole frames in one chunk *)

Lemma wire_size (ws : list WireFrame) :
  Forall wellFramed ws -> 8 * Z.of_nat (length ws) <= GetSize (wire ws).
Proof.
  induction 1 as [|w ws [H8 _] _ IH]; cbn [wire length].
  - unfold GetSize; simpl; lia.
  - rewrite !GetSize_app, H8. pose proof (GetSize_nonneg (snd w)). lia.
Qed.

Lemma readExtent_wireEvents (ws : list WireFrame) :
  Forall wellFramed ws ->
  forall off, 0 <= off ->
  readExtent (wireEvents off ws) <= off + GetSize (wire ws).
Proof.
  induction 1 as [|w ws [H8 _] _ IH]; intros off Hoff;
    cbn [wireEvents readExtent wire].
  - unfold GetSize; simpl; lia.
  - pose proof (GetSize_nonneg (snd w)). pose proof (GetSize_nonneg (wire ws)).
    specialize (IH (GetSize (snd w) + (8 + off)) ltac:(lia)).
    rewrite !GetSize_app, H8. lia.
Qed.

Lemma completed_wireEvents (ws : list WireFrame) :
  forall off, completed (wireEvents off ws) = decoded ws.
Proof.
  induction ws as [|w ws IH]; intros off;
    cbn [wireEvents completed decoded map].
  - reflexivity.
  - f_equal. apply IH.
Qed.

(** The loop on a chunk of whole frames: one pass through the body for each
    frame. *)
Lemma loop_wire (rest : list byte) (size : Z) (ws : list WireFrame) :
  forall (pre : list byte) (t mo ho : Z) (msgs : list NetworkMessage)
         (tr : list event) (n : nat),
  Forall wellFramed ws -> endsWithPayload ws ->
  t = GetSize pre -> mo = GetSize pre ->
  size = GetSize pre + GetSize (wire ws) -> size <= INT_MAX ->
  (length ws <= n)%nat ->
  exists ho' mo',
    loop (pre ++ wire ws ++ rest) size n
         (mkFrame (AwaitingHeader [] t) ho mo msgs tr) =
    Some (Returned (mkFrame (AwaitingHeader [] size) ho' mo'
                            (msgs ++ decoded ws) (tr ++ wireEvents mo ws))).
Proof.
  induction ws as [|w ws IH]; intros pre t mo ho msgs tr n Hwf Hend Ht Hmo Hsz
    Hint Hn.
  - cbn [wire decoded map wireEvents] in *. change (GetSize []) with 0 in Hsz.
    rewrite !app_nil_r. exists ho, mo.
    rewrite loop_done by (cbn [self AwaitingHeader m_totalBytesParsed]; lia).
    replace size with t by lia. reflexivity.
  - destruct w as [hdr payload]. cbn [wire fst snd] in *.
    inversion Hwf as [|w' ws' [H8 Hlen] Hwf']; subst w' ws'.
    cbn [fst snd] in H8, Hlen.
    pose proof (GetSize_nonneg pre) as Hpre.
    pose proof (GetSize_nonneg payload) as Hpay.
    pose proof (GetSize_nonneg (wire ws)) as Hws.
    pose proof (wire_size ws Hwf') as Hws8.
    rewrite !GetSize_app, H8 in Hsz.
    assert (Hmore : 0 < GetSize payload + GetSize (wire ws)).
    { destruct ws as [|w1 ws1]; [cbn [endsWithPayload snd] in Hend; lia|].
      cbn [length] in Hws8. lia. }
    assert (Hend' : endsWithPayload ws).
    { destruct ws as [|w1 ws1]; [exact I | exact Hend]. }
    destruct n as [|n]; [cbn [length] in Hn; lia|].
    rewrite loop_step by (cbn [self AwaitingHeader m_totalBytesParsed]; lia).
    rewrite <- !app_assoc. subst mo.
    rewrite (iteration_whole_message pre hdr payload (wire ws ++ rest) size t ho
               msgs tr H8 Hlen) by arith.
    destruct (IH (pre ++ hdr ++ payload) (t + 8 + GetSize payload)
                 (GetSize payload + (8 + GetSize pre)) (8 + GetSize pre)
                 (msgs ++ [mkMessage (decodeHeader hdr) payload])
                 (tr ++ [Read (GetSize pre) 8;
                         Read (8 + GetSize pre) (GetSize payload);
                         Emit (mkMessage (decodeHeader hdr) payload)])
                 n Hwf' Hend')
      as (ho' & mo' & Hloop);
      try (rewrite !GetSize_app, ?H8; lia); try lia.
    { cbn [length] in Hn. lia. }
    exists ho', mo'.
    rewrite <- !app_assoc in Hloop. rewrite Hloop.
    cbn [decoded map wireEvents fst snd app]. reflexivity.
Qed.

(** A chunk of whole frames whose last payload is not empty, in one call on a
    new parser: the call emits the messages of the frames, in their order and
    with their bytes, reads nothing behind the chunk, and leaves the parser
    as new. *)
Theorem one_chunk_stream (ws : list WireFrame) (rest : list byte)
    (msgs : list NetworkMessage) :
  Forall wellFramed ws -> endsWithPayload ws ->
  GetSize (wire ws) <= INT_MAX ->
  ParseMessage fresh (wire ws ++ rest) (GetSize (wire ws)) msgs =
    Some (Returned (mkResult fresh (msgs ++ decoded ws)
                             (negb (isEmpty (msgs ++ decoded ws)))
                             (wireEvents 0 ws))) /\
  completed (wireEvents 0 ws) = decoded ws /\
  readExtent (wireEvents 0 ws) <= GetSize (wire ws).
Proof.
  intros Hwf Hend Hint. split; [|split].
  - pose proof (wire_size ws Hwf) as H8.
    destruct (loop_wire rest (GetSize (wire ws)) ws [] 0 0 0 msgs []
                (S (Z.to_nat (GetSize (wire ws)))) Hwf Hend)
      as (ho' & mo' & Hloop); try reflexivity; try exact Hint.
    { lia. }
    cbn [app] in Hloop. unfold ParseMessage, ParseMessage_fuel.
    change fresh with (AwaitingHeader [] 0). rewrite Hloop. reflexivity.
  - apply completed_wireEvents.
  - pose proof (readExtent_wireEvents ws Hwf 0 ltac:(lia)). lia.
Qed.

Lemma one_chunk_stream_example :
  ParseMessage fresh
    (wire [(s_header, s_messageData); (emptyHeader, []);
           (s_header, s_messageData)])
    52 [] =
  Some (Returned (mkResult fresh
          [s_message; mkMessage (mkHeader 1 0) []; s_message] true
          (wireEvents 0 [(s_header, s_messageData); (emptyHeader, []);
                         (s_header, s_messageData)]))).
Proof.
  pose proof (one_chunk_stream
                [(s_header, s_messageData); (emptyHeader, []);
                 (s_header, s_messageData)] [] []) as H.
  rewrite app_nil_r in H. apply H.
  - repeat constructor.
  - simpl. unfold GetSize. simpl. lia.
  - unfold GetSize, INT_MAX. simpl. lia.
Qed.

(** ** The header of a parser that awaits a header is never read *)

Lemma sameParsing_refl (p : MessageParser) : sameParsing p p.
Proof. repeat split; reflexivity. Qed.

Lemma sameFrame_refl (f : Frame) : sameFrame f f.
Proof. split; [apply sameParsing_refl | repeat split; reflexivity]. Qed.

Lemma sameOutcome_refl (o : outcome Frame) :
  sameOutcome sameFrame (Some o) (Some o).
Proof. destruct o; [apply sameFrame_refl | exact I]. Qed.

Section StaleHeader.

Variable rawData : list byte.
Variable size : Z.

Ltac same_start f g H :=
  let Hfb := fresh "Hfb" in
  let Hsb := fresh "Hsb" in
  let Hab := fresh "Hab" in
  let Hhs := fresh "Hhs" in
  let Ht := fresh "Ht" in
  let Hho := fresh "Hho" in
  let Hmo := fresh "Hmo" in
  let Hmsgs := fresh "Hmsgs" in
  let Htr := fresh "Htr" in
  destruct f as [[fb sb ab hs h t] ho mo msgs tr];
  destruct g as [[fb' sb' ab' hs' h' t'] ho' mo' msgs' tr'];
  destruct H as ((Hfb & Hsb & Hab & Hhs & Ht & Hh) & Hho & Hmo & Hmsgs & Htr);
  cbn [self headerOffset messageOffset messages trace m_firstBuffer
       m_secondBuffer m_activeBuffer m_isHeaderSet m_header
       m_totalBytesParsed] in *;
  subst fb' sb' ab' hs' t' ho' mo' msgs' tr'.

Lemma headerPhase_same (f g : Frame) :
  sameFrame f g ->
  sameOutcome sameFrame (Some (headerPhase rawData size f))
                        (Some (headerPhase rawData size g)).
Proof.
  intros H. same_start f g H.
  unfold headerPhase.
  cbn [self active m_activeBuffer m_firstBuffer m_secondBuffer
       m_totalBytesParsed messageOffset headerOffset messages trace].
  destruct (to_int _) as [startSize|]; cbn [bind sameOutcome]; [|exact I].
  destruct (fetch _ _ _) as [src|]; cbn [bind sameOutcome]; [|exact I].
  destruct ab; cbn -[Z.min u32 decodeHeader to_int Z.eqb GetSize firstn];
    match goal with
    | |- context [if ?c then _ else _] => destruct c
    end;
    cbn -[Z.min u32 decodeHeader to_int Z.eqb GetSize firstn];
    try (destruct (to_int _); cbn [bind]; [|exact I]);
    repeat split; try reflexivity; intros; try discriminate; auto.
Qed.

Lemma payloadPhase_same (f g : Frame) :
  sameFrame f g -> m_isHeaderSet (self f) = true ->
  sameOutcome sameFrame (Some (payloadPhase rawData size f))
                        (Some (payloadPhase rawData size g)).
Proof.
  intros H Hset. same_start f g H. subst hs. rewrite <- (Hh eq_refl).
  apply sameOutcome_refl.
Qed.

Lemma iteration_same (f g : Frame) :
  sameFrame f g ->
  sameOutcome sameFrame (Some (iteration rawData size f))
                        (Some (iteration rawData size g)).
Proof.
  intros H. unfold iteration.
  assert (Hset : m_isHeaderSet (self g) = m_isHeaderSet (self f)).
  { destruct H as ((_ & _ & _ & E & _) & _). symmetry. exact E. }
  rewrite Hset.
  assert (H1 : sameOutcome sameFrame
            (Some (if m_isHeaderSet (self f) then Returned f
                   else headerPhase rawData size f))
            (Some (if m_isHeaderSet (self f) then Returned g
                   else headerPhase rawData size g))).
  { destruct (m_isHeaderSet (self f)); [exact H | apply headerPhase_same, H]. }
  destruct (if m_isHeaderSet (self f) then Returned f
            else headerPhase rawData size f) as [f1|];
    destruct (if m_isHeaderSet (self f) then Returned g
              else headerPhase rawData size g) as [g1|];
    cbn [sameOutcome] in H1; try contradiction; cbn [bind]; [|exact I].
  assert (Hguard : m_isHeaderSet (self g1) = m_isHeaderSet (self f1) /\
                   m_totalBytesParsed (self g1) = m_totalBytesParsed (self f1)).
  { destruct H1 as ((_ & _ & _ & E1 & E2 & _) & _). split; congruence. }
  destruct Hguard as [-> ->].
  destruct (m_isHeaderSet (self f1)) eqn:Eset; cbn [andb]; [|exact H1].
  destruct (m_totalBytesParsed (self f1) <? size); [|exact H1].
  apply payloadPhase_same; assumption.
Qed.

Lemma loop_same (n : nat) :
  forall f g, sameFrame f g ->
  sameOutcome sameFrame (loop rawData size n f) (loop rawData size n g).
Proof.
  induction n as [|n IH]; intros f g H;
    assert (Ht : m_totalBytesParsed (self g) = m_totalBytesParsed (self f))
      by (destruct H as ((_ & _ & _ & _ & E & _) & _); congruence);
    cbn [loop]; rewrite Ht;
    destruct (m_totalBytesParsed (self f) <? size); try exact H; try exact I.
  pose proof (iteration_same f g H) as Hit.
  destruct (iteration rawData size f) as [f1|];
    destruct (iteration rawData size g) as [g1|];
    cbn [sameOutcome] in Hit; try contradiction; [|exact I].
  apply IH. exact Hit.
Qed.

End StaleHeader.

(** X12 - The header is read only while it is set.  Calls on two parsers that
    differ at most in the header they hold while no header is set have the
    same outcome, make the same copies, emit the same messages and leave
    parsers that again differ at most in that. *)
Theorem stale_header_is_never_read (p q : MessageParser) (rawData : list byte)
    (size : Z) (msgs : list NetworkMessage) :
  sameParsing p q ->
  sameOutcome sameResult (ParseMessage p rawData size msgs)
                         (ParseMessage q rawData size msgs).
Proof.
  intros H. unfold ParseMessage, ParseMessage_fuel.
  pose proof (loop_same rawData size (S (Z.to_nat size))
                (mkFrame p 0 0 msgs []) (mkFrame q 0 0 msgs [])) as Hl.
  specialize (Hl ltac:(split; [exact H | repeat split; reflexivity])).
  destruct (loop rawData size (S (Z.to_nat size)) (mkFrame p 0 0 msgs []))
    as [[f|]|];
    destruct (loop rawData size (S (Z.to_nat size)) (mkFrame q 0 0 msgs []))
      as [[g|]|];
    cbn [sameOutcome] in Hl |- *; try contradiction; try exact I.
  destruct Hl as ((Hfb & Hsb & Hab & Hhs & Ht & Hh) & _ & _ & Hm & Htr).
  unfold sameResult, sameParsing.
  cbn [parser output hasMessages events setTotal m_firstBuffer m_secondBuffer
       m_activeBuffer m_isHeaderSet m_header m_totalBytesParsed].
  rewrite Hm, Htr. repeat split; assumption.
Qed.

(** ** What the cursor counts *)

Lemma visits_cursor (rawData : list byte) (size : Z) (f0 f : Frame) :
  0 <= size < 2 ^ 32 -> frame_ok size f0 ->
  visits rawData size f0 f ->
  f = f0 \/
  (m_totalBytesParsed (self f) - consumed (trace f) =
   m_totalBytesParsed (self f0) - consumed (trace f0) + carried (self f0) /\
   (m_totalBytesParsed (self f) < size -> carried (self f) = 0)).
Proof.
  intros Hsize Hok Hv. induction Hv as [|f f' Hv IH Hlt Hit].
  - left. reflexivity.
  - right.
    pose proof (visits_frame_ok rawData size Hsize f0 f Hok Hv) as Hf.
    destruct (iteration_ok rawData size f f' Hsize Hf Hlt Hit)
      as (_ & Hnext & _ & _ & Hcur).
    split.
    + destruct IH as [-> | [IH Hzero]]; [exact Hcur|].
      rewrite Hcur, (Hzero Hlt). lia.
    + intros Hlt'. destruct Hnext as [Hover | (t' & ->)]; [lia|]. reflexivity.
Qed.

(** When the loop of a call on a chunk of at least one byte ends, the cursor
    is the number of bytes the call copied out of [rawData] plus the number
    of header bytes the parser held on entry; it is at least [size]. *)
Theorem cursor_at_loop_end (p : MessageParser) (rawData : list byte) (size : Z)
    (msgs : list NetworkMessage) (n : nat) (f : Frame) :
  reachable p -> 0 < size < 2 ^ 32 ->
  loop rawData size n (mkFrame p 0 0 msgs []) = Some (Returned f) ->
  m_totalBytesParsed (self f) = consumed (trace f) + carried p /\
  size <= m_totalBytesParsed (self f).
Proof.
  intros Hp Hsize Hloop.
  pose proof (reachable_idle p Hp) as Hidle.
  pose proof (loop_exit rawData size n _ f Hloop) as Hexit.
  split; [|exact Hexit].
  pose proof (loop_visits rawData size n _ _ f (visits_start _ _ _) Hloop)
    as Hv.
  destruct (visits_cursor rawData size _ f ltac:(lia)
              (idle_frame_ok size p msgs Hidle) Hv) as [-> | [Hcur _]].
  - cbn [self] in Hexit. destruct Hidle as [_ Hz]. lia.
  - cbn [self trace consumed] in Hcur. destruct Hidle as [_ Hz]. lia.
Qed.

(** ** Prefixes of a header *)

(** A chunk of at most 8 bytes on a new parser completes no message. *)
Lemma header_prefix_emits_nothing (c rest : list byte)
    (msgs : list NetworkMessage) (r : CallResult) :
  0 < GetSize c <= 8 ->
  ParseMessage fresh (c ++ rest) (GetSize c) msgs = Some (Returned r) ->
  output r = msgs /\ completed (events r) = [] /\
  readExtent (events r) = GetSize c.
Proof.
  intros Hc Hcall. change fresh with (AwaitingHeader [] 0) in Hcall.
  destruct (Z.eq_dec (GetSize c) 8) as [H8 | H8].
  - rewrite call_header_complete in Hcall
      by (change (GetSize []) with 0; lia).
    ret_inv Hcall r. cbn [output events completed readExtent].
    repeat split. lia.
  - rewrite call_header_partial in Hcall
      by (change (GetSize []) with 0; arith).
    ret_inv Hcall r. cbn [output events completed readExtent].
    repeat split. lia.
Qed.

(** ** The tests of [MessageParserTest.cpp]

    The scenarios of the test file, replayed on the model: each test feeds
    the parser the chunks the test sends and finds the flags and the messages
    the test asserts. *)

(** [TestSingle]: the full message in one chunk. *)
Example TestSingle :
  feed fresh [s_header ++ s_messageData] [] [] =
  Some (Returned (fresh, [s_message], [true])).
Proof. reflexivity. Qed.

(** [TestPartial], test 1: the header, then the payload in chunks of 3, 6 and
    5 bytes. *)
Example TestPartial_1 :
  feed fresh (chunks [8; 3; 6; 5]%nat (wire (testFrames 1))) [] [] =
  Some (Returned (fresh, [s_message], [false; false; false; true])).
Proof. reflexivity. Qed.

(** [TestPartial], test 2: the header in chunks of 2, 2, 3 and 1 bytes, the
    payload in two chunks of 7 bytes. *)
Example TestPartial_2 :
  feed fresh (chunks [2; 2; 3; 1; 7; 7]%nat (wire (testFrames 1))) [] [] =
  Some (Returned (fresh, [s_message],
                  [false; false; false; false; false; true])).
Proof. reflexivity. Qed.

(** [TestUneven], test 1: header; 11 and 2 payload bytes; the last payload
    byte with the first 2 bytes of the next header; the other 6 header bytes
    with the whole payload. *)
Example TestUneven_1 :
  feed fresh (chunks [8; 11; 2; 3; 20]%nat (wire (testFrames 2))) [] [] =
  Some (Returned (fresh, [s_message; s_message],
                  [false; false; false; true; true])).
Proof. reflexivity. Qed.

(** [TestUneven], test 2: header; 1 and 7 payload bytes; the last 6 payload
    bytes with the whole next message. *)
Example TestUneven_2 :
  feed fresh (chunks [8; 1; 7; 28]%nat (wire (testFrames 2))) [] [] =
  Some (Returned (fresh, [s_message; s_message],
                  [false; false; false; true])).
Proof. reflexivity. Qed.

(** [TestUneven], test 3: as test 2, with 3 more messages in the last
    chunk. *)
Example TestUneven_3 :
  feed fresh (chunks [8; 1; 7; 94]%nat (wire (testFrames 5))) [] [] =
  Some (Returned (fresh, repeat s_message 5, [false; false; false; true])).
Proof. reflexivity. Qed.

Lemma testFrames_wellFramed (n : nat) : Forall wellFramed (testFrames n).
Proof.
  apply Forall_forall. intros w Hw. apply repeat_spec in Hw. subst w.
  split; reflexivity.
Qed.

Lemma testFrames_endsWithPayload (n : nat) : endsWithPayload (testFrames n).
Proof.
  induction n as [|n IH]; [exact I|].
  cbn [testFrames repeat endsWithPayload]. fold (testFrames n).
  destruct (testFrames n); [|exact IH].
  cbn [snd]. unfold GetSize. simpl. lia.
Qed.

Lemma testFrames_size (n : nat) :
  GetSize (wire (testFrames n)) = 22 * Z.of_nat n.
Proof.
  induction n as [|n IH]; [reflexivity|].
  cbn [testFrames repeat wire fst snd]. fold (testFrames n).
  rewrite !GetSize_app, IH. change (GetSize s_header) with 8.
  change (GetSize s_messageData) with 14. lia.
Qed.

Lemma testFrames_decoded (n : nat) :
  decoded (testFrames n) = repeat s_message n.
Proof.
  induction n as [|n IH]; [reflexivity|].
  cbn [testFrames repeat decoded map]. f_equal. exact IH.
Qed.

(** [TestMulti]: 2900 messages in one chunk of 63800 bytes. *)
Example TestMulti :
  exists evs,
    ParseMessage fresh (wire (testFrames 2900)) 63800 [] =
    Some (Returned (mkResult fresh (repeat s_message 2900) true evs)).
Proof.
  destruct (one_chunk_stream (testFrames 2900) [] []
              (testFrames_wellFramed 2900) (testFrames_endsWithPayload 2900))
    as [H _].
  - rewrite testFrames_size. unfold INT_MAX. lia.
  - rewrite app_nil_r, testFrames_size, testFrames_decoded in H.
    change (22 * Z.of_nat 2900) with 63800 in H.
    eexists. exact H.
Qed.

(** * The claims of the specification *)

Ltac sz := unfold GetSize, INT_MAX; cbn [length app]; lia.

(** C1 - Chunk-invariance, at a partition the code gets wrong.  The test
    message of 22 bytes, cut into chunks of 2, 7 and 13 bytes: the second call
    adds the 8 bytes of the header buffer to the cursor although it took 6
    from the chunk, so the loop ends before the first payload byte is copied;
    the third call leaves 13 of the 14 payload bytes in the buffer and no
    message is ever emitted.  The same 22 bytes in one chunk give the
    message. *)
Lemma chunks_2_7_13_lose_the_message :
  feed fresh (chunks [2; 7; 13]%nat (s_header ++ s_messageData)) [] [] =
    Some (Returned (AwaitingPayload (mkHeader 1 14) (skipn 1 s_messageData) 0,
                    [], [false; false; false])) /\
  feed fresh [s_header ++ s_messageData] [] [] =
    Some (Returned (fresh, [s_message], [true])).
Proof. split; reflexivity. Qed.

(** C2 - Payload copy, at a chunk the code reads past.  The header of the test
    message and its first 3 payload bytes, size = 11: the payload phase
    copies min(size, 14) = 11 bytes from offset 8, that is the bytes 8 to 18
    of rawData.  In a buffer of exactly 11 bytes the read is outside the
    buffer; in a buffer that goes on with 8 zero bytes, these end up in the
    payload. *)
Lemma payload_copy_reads_past_the_chunk :
  ParseMessage fresh (firstn 11 (s_header ++ s_messageData)) 11 [] =
    Some Undefined /\
  ParseMessage fresh (firstn 11 (s_header ++ s_messageData) ++ repeat x00 8)
               11 [] =
    Some (Returned (mkResult
            (AwaitingPayload (mkHeader 1 14)
                             (firstn 3 s_messageData ++ repeat x00 8) 0)
            [] false [Read 0 8; Read 8 11])) /\
  readExtent [Read 0 8; Read 8 11] = 19.
Proof. repeat split; reflexivity. Qed.

(** C3 - No premature emission, at a prefix the code emits on.  The first 15
    bytes of the test message (header and 7 payload bytes), size = 15, on a
    new parser with an empty vector: the payload phase copies 14 bytes from
    offset 8, 7 of them from behind the chunk, and emits a message; the call
    returns true.  In a buffer of exactly 15 bytes the read is outside the
    buffer. *)
Lemma strict_prefix_emits_a_message :
  ParseMessage fresh (firstn 15 (s_header ++ s_messageData) ++ repeat x00 7)
               15 [] =
    Some (Returned (mkResult fresh
            [mkMessage (mkHeader 1 14) (firstn 7 s_messageData ++ repeat x00 7)]
            true
            [Read 0 8; Read 8 14;
             Emit (mkMessage (mkHeader 1 14)
                             (firstn 7 s_messageData ++ repeat x00 7))])) /\
  ParseMessage fresh (firstn 15 (s_header ++ s_messageData)) 15 [] =
    Some Undefined.
Proof. split; reflexivity. Qed.

(** C4 - counterexample.  A call on the 8 header bytes of a message with an
    empty payload, and nothing after them, consumes the last header byte and
    completes no message. *)
Lemma empty_message_waits_for_next_call : ~ emits_empty_message_with_header.
Proof.
  intros H.
  specialize (H emptyHeader [] 8 []
                (mkResult (AwaitingPayload (decodeHeader emptyHeader) [] 0) []
                          false [Read 0 8])
                eq_refl eq_refl ltac:(simpl; lia) eq_refl).
  exact H.
Qed.

(** C4 - Zero-length payload, as the code has it.  A message whose header
    declares messageLength = 0, and whose 8 header bytes a parser with empty
    buffers consumes in one call, is emitted with an empty payload in that
    call when the chunk has at least one more byte after the header: the
    first pass through the loop body emits it.  When the last header byte is
    the last byte of the chunk, that call emits nothing and leaves the header
    set; the message is emitted, with an empty payload, by the first pass
    through the loop body of the next call that has a chunk of at least one
    byte. *)
Theorem zero_length_payload (hdr : list byte) (msgs : list NetworkMessage) :
  length hdr = 8%nat -> messageLength (decodeHeader hdr) = 0 ->
  let m := mkMessage (decodeHeader hdr) [] in
  (forall rest size,
     8 < size < 2 ^ 32 ->
     iteration (hdr ++ rest) size (mkFrame fresh 0 0 msgs []) =
       Returned (mkFrame (AwaitingHeader [] 8) 8 8 (msgs ++ [m])
                         [Read 0 8; Read 8 0; Emit m]) /\
     forall r, ParseMessage fresh (hdr ++ rest) size msgs = Some (Returned r) ->
       exists evs, events r = Read 0 8 :: Read 8 0 :: Emit m :: evs /\
                   output r = msgs ++ m :: completed evs) /\
  ParseMessage fresh hdr 8 msgs =
    Some (Returned (mkResult (AwaitingPayload (decodeHeader hdr) [] 0) msgs
                             (negb (isEmpty msgs)) [Read 0 8])) /\
  (forall rawData size msgs',
     0 < size ->
     iteration rawData size
               (mkFrame (AwaitingPayload (decodeHeader hdr) [] 0) 0 0 msgs'
                        []) =
       Returned (mkFrame (AwaitingHeader [] 0) 0 0 (msgs' ++ [m])
                         [Read 0 0; Emit m]) /\
     forall r,
       ParseMessage (AwaitingPayload (decodeHeader hdr) [] 0) rawData size msgs'
         = Some (Returned r) ->
       exists evs, events r = Read 0 0 :: Emit m :: evs /\
                   output r = msgs' ++ m :: completed evs).
Proof.
  intros Hh Hlen m.
  assert (H8 : GetSize hdr = 8) by (unfold GetSize; rewrite Hh; reflexivity).
  split; [|split].
  - intros rest size Hs.
    assert (Hit : iteration (hdr ++ rest) size (mkFrame fresh 0 0 msgs []) =
                  Returned (mkFrame (AwaitingHeader [] 8) 8 8 (msgs ++ [m])
                                    [Read 0 8; Read 8 0; Emit m])).
    { pose proof (iteration_whole_message [] hdr [] rest size 0 0 msgs []
                    H8 Hlen) as H.
      cbn [app] in H. change (GetSize []) with 0 in H.
      apply H; arith. }
    split; [exact Hit|]. intros r Hcall.
    assert (Hs0 : 0 < size) by lia.
    destruct (call_first_iteration fresh _ _ _ _ r eq_refl Hs0 Hit Hcall)
      as (evs & He & Ho).
    exists evs. cbn [trace messages app] in He, Ho.
    rewrite He, Ho, <- app_assoc. split; reflexivity.
  - pose proof (exact_header_complete hdr msgs []) as H.
    rewrite H8 in H. apply H; [lia|]. change (GetSize []) with 0. lia.
  - intros rawData size msgs' Hs.
    pose proof (iteration_pending_empty (decodeHeader hdr) rawData size msgs'
                  Hlen Hs) as Hit.
    split; [exact Hit|]. intros r Hcall.
    destruct (call_first_iteration (AwaitingPayload (decodeHeader hdr) [] 0)
                _ _ _ _ r eq_refl Hs Hit Hcall) as (evs & He & Ho).
    exists evs. cbn [trace messages app] in He, Ho.
    rewrite He, Ho, <- app_assoc. split; reflexivity.
Qed.

Lemma zero_length_payload_witness :
  (forall rest size,
     8 < size < 2 ^ 32 ->
     iteration (emptyHeader ++ rest) size (mkFrame fresh 0 0 [] []) =
       Returned (mkFrame (AwaitingHeader [] 8) 8 8
                         ([] ++ [mkMessage (decodeHeader emptyHeader) []])
                         [Read 0 8; Read 8 0;
                          Emit (mkMessage (decodeHeader emptyHeader) [])]) /\
     forall r,
       ParseMessage fresh (emptyHeader ++ rest) size [] = Some (Returned r) ->
       exists evs,
         events r = Read 0 8 :: Read 8 0
                    :: Emit (mkMessage (decodeHeader emptyHeader) []) :: evs /\
         output r = [] ++ mkMessage (decodeHeader emptyHeader) []
                          :: completed evs) /\
  ParseMessage fresh emptyHeader 8 [] =
    Some (Returned (mkResult (AwaitingPayload (decodeHeader emptyHeader) [] 0)
                             [] false [Read 0 8])) /\
  (forall rawData size msgs',
     0 < size ->
     iteration rawData size
               (mkFrame (AwaitingPayload (decodeHeader emptyHeader) [] 0)
                        0 0 msgs' []) =
       Returned (mkFrame (AwaitingHeader [] 0) 0 0
                         (msgs' ++ [mkMessage (decodeHeader emptyHeader) []])
                         [Read 0 0;
                          Emit (mkMessage (decodeHeader emptyHeader) [])]) /\
     forall r,
       ParseMessage (AwaitingPayload (decodeHeader emptyHeader) [] 0)
                    rawData size msgs' = Some (Returned r) ->
       exists evs,
         events r = Read 0 0
                    :: Emit (mkMessage (decodeHeader emptyHeader) []) :: evs /\
         output r = msgs' ++ mkMessage (decodeHeader emptyHeader) []
                             :: completed evs).
Proof.
  apply (zero_length_payload emptyHeader []); reflexivity.
Defined.

(** C5 - counterexample.  A call on one byte of a header, with a vector that
    already holds a message, completes nothing and returns true. *)
Lemma hasMessages_counts_earlier_messages : ~ returns_true_iff_completed.
Proof.
  intros H.
  specialize (H fresh [x01] 1 [s_message]
                (mkResult (AwaitingHeader [x01] 0) [s_message] true [Read 0 1])
                reachable_fresh ltac:(lia) eq_refl).
  cbn [hasMessages events completed] in H.
  destruct H as [H _]. apply (H eq_refl). reflexivity.
Qed.

(** C5 - Return-value contract, as the code has it.  A call appends the
    messages it completes to the vector, in the order it completes them, and
    leaves the earlier entries in place; it returns true if and only if the
    vector is not empty when it returns, that is, if the vector was not empty
    on entry or the call completed a message. *)
Theorem hasMessages_spec (p : MessageParser) (rawData : list byte) (size : Z)
    (msgs : list NetworkMessage) (r : CallResult) :
  ParseMessage p rawData size msgs = Some (Returned r) ->
  output r = msgs ++ completed (events r) /\
  (hasMessages r = true <-> msgs <> [] \/ completed (events r) <> []).
Proof.
  intros H. apply ParseMessage_inv in H. destruct H as (f & Hloop & ->).
  cbn [output hasMessages events].
  apply loop_grows in Hloop. destruct Hloop as (evs & Ht & Hm).
  cbn [trace messages app] in Ht, Hm. subst evs.
  split; [exact Hm|].
  rewrite isEmpty_false, Hm. split.
  - intros H. destruct msgs as [|m msgs]; [right|left; discriminate].
    exact H.
  - intros [H | H] E; apply app_eq_nil in E; destruct E as [E1 E2];
      contradiction.
Qed.

Lemma hasMessages_spec_witness :
  output (mkResult (AwaitingHeader [x01] 0) [s_message] true [Read 0 1]) =
    [s_message] ++
    completed (events (mkResult (AwaitingHeader [x01] 0) [s_message] true
                                [Read 0 1])) /\
  (hasMessages (mkResult (AwaitingHeader [x01] 0) [s_message] true [Read 0 1])
     = true <->
   [s_message] <> [] \/
   completed (events (mkResult (AwaitingHeader [x01] 0) [s_message] true
                               [Read 0 1])) <> []).
Proof.
  apply (hasMessages_spec fresh [x01] 1 [s_message]). reflexivity.
Defined.

(** C6 - counterexample.  A header that declares 4294967295 payload bytes is
    accepted like any other: the call returns, and the parser awaits the
    payload.  No maximum below that length is enforced. *)
Lemma no_maximum_frame_size :
  ~ exists maxFrameSize,
      maxFrameSize < 4294967295 /\ rejects_frames_over maxFrameSize.
Proof.
  intros (maxFrameSize & Hmax & H).
  apply (H hugeHeader []
           (mkResult (AwaitingPayload (decodeHeader hugeHeader) [] 0) [] false
                     [Read 0 8])).
  - reflexivity.
  - exact Hmax.
  - reflexivity.
  - reflexivity.
Qed.

(** C6 - Length field, as the code has it.  ParseMessage has no maximum frame
    size and no result that reports a failure.  Whatever messageLength a
    header of 8 bytes declares, the call that receives it on a new parser
    returns as every call that completes no message does (the vector is
    unchanged), with the header decoded and its payload awaited; and every
    later chunk that does not complete the declared length is appended whole
    to the payload buffer. *)
Theorem header_accepted_whatever_length (hdr : list byte)
    (msgs : list NetworkMessage) :
  length hdr = 8%nat ->
  ParseMessage fresh hdr 8 msgs =
    Some (Returned (mkResult (AwaitingPayload (decodeHeader hdr) [] 0) msgs
                             (negb (isEmpty msgs)) [Read 0 8])) /\
  forall (b c : list byte),
    0 < GetSize c <= INT_MAX ->
    GetSize b + GetSize c < messageLength (decodeHeader hdr) ->
    ParseMessage (AwaitingPayload (decodeHeader hdr) b 0) c (GetSize c) msgs =
    Some (Returned (mkResult (AwaitingPayload (decodeHeader hdr) (b ++ c) 0)
                             msgs (negb (isEmpty msgs))
                             [Read 0 (GetSize c)])).
Proof.
  intros Hh.
  assert (H8 : GetSize hdr = 8) by (unfold GetSize; rewrite Hh; reflexivity).
  split.
  - pose proof (exact_header_complete hdr msgs []) as H.
    rewrite H8 in H. apply H; [lia|]. change (GetSize []) with 0. lia.
  - intros b c Hc Hb. apply exact_payload_partial; [exact Hc| |exact Hb].
    apply le32_range.
Qed.

Lemma header_accepted_whatever_length_witness :
  ParseMessage fresh hugeHeader 8 [] =
    Some (Returned (mkResult (AwaitingPayload (decodeHeader hugeHeader) [] 0) []
                             false [Read 0 8])) /\
  forall (b c : list byte),
    0 < GetSize c <= INT_MAX ->
    GetSize b + GetSize c < messageLength (decodeHeader hugeHeader) ->
    ParseMessage (AwaitingPayload (decodeHeader hugeHeader) b 0) c (GetSize c)
                 [] =
    Some (Returned (mkResult
            (AwaitingPayload (decodeHeader hugeHeader) (b ++ c) 0)
            [] false [Read 0 (GetSize c)])).
Proof.
  apply (header_accepted_whatever_length hugeHeader []). reflexivity.
Defined.

(** C7 - Cursor accounting, at a call where the cursor overshoots.  The
    header of the test message in calls of 2 bytes: the loop of the second
    call copies 2 bytes and ends with totalBytesParsed = 4, the size of the
    header buffer, and not 2, the size of the chunk. *)
Lemma cursor_adds_the_buffer_size :
  ParseMessage fresh (firstn 2 s_header) 2 [] =
    Some (Returned (mkResult (AwaitingHeader (firstn 2 s_header) 0) [] false
                             [Read 0 2])) /\
  loop (firstn 2 (skipn 2 s_header)) 2 3
       (mkFrame (AwaitingHeader (firstn 2 s_header) 0) 0 0 [] []) =
    Some (Returned (mkFrame (AwaitingHeader (firstn 4 s_header) 4) 0 0 []
                            [Read 0 2])) /\
  consumed [Read 0 2] = 2.
Proof. repeat split; reflexivity. Qed.

(** C8 - Cross-call carryover.  On a new parser, a message with a payload of
    14 bytes whose 8 header bytes arrive in calls of 2, 2, 3 and 1 bytes and
    whose payload arrives in two calls of 7 bytes is emitted once, by the last
    call, and is the message that one call on all 22 bytes emits: the decoded
    header and the 14 payload bytes.  Both runs leave the parser as new. *)
Theorem cross_call_carryover (hdr payload : list byte) :
  length hdr = 8%nat -> length payload = 14%nat ->
  messageLength (decodeHeader hdr) = 14 ->
  feed fresh (chunks [2; 2; 3; 1; 7; 7]%nat (hdr ++ payload)) [] [] =
    Some (Returned (fresh, [mkMessage (decodeHeader hdr) payload],
                    [false; false; false; false; false; true])) /\
  feed fresh [hdr ++ payload] [] [] =
    Some (Returned (fresh, [mkMessage (decodeHeader hdr) payload], [true])).
Proof.
  intros Hh Hp Hlen.
  destruct hdr as [|h0 [|h1 [|h2 [|h3 [|h4 [|h5 [|h6 [|h7 [|]]]]]]]]];
    try discriminate Hh.
  do 14 (destruct payload as [|? payload]; [discriminate Hp|]).
  destruct payload; [|discriminate Hp].
  pose proof (le32_range (skipn 4 [h0; h1; h2; h3; h4; h5; h6; h7])) as Hr.
  split.
  - cbn [chunks firstn skipn app].
    change fresh with (AwaitingHeader [] 0) at 1.
    rewrite feed_cons, exact_header_partial by sz.
    cbn [parser output hasMessages app negb isEmpty].
    rewrite feed_cons, exact_header_partial by sz.
    cbn [parser output hasMessages app negb isEmpty].
    rewrite feed_cons, exact_header_partial by sz.
    cbn [parser output hasMessages app negb isEmpty].
    rewrite feed_cons, exact_header_complete by sz.
    cbn [parser output hasMessages app negb isEmpty].
    rewrite feed_cons, exact_payload_partial
      by (try rewrite Hlen; try exact Hr; sz).
    cbn [parser output hasMessages app negb isEmpty].
    rewrite feed_cons, exact_payload_complete
      by (try rewrite Hlen; try exact Hr; sz).
    reflexivity.
  - rewrite feed_cons.
    pose proof (exact_whole_message [h0; h1; h2; h3; h4; h5; h6; h7]
                  [b; b0; b1; b2; b3; b4; b5; b6; b7; b8; b9; b10; b11; b12]
                  []) as H.
    cbv zeta in H. rewrite Hlen in H.
    specialize (H ltac:(reflexivity) ltac:(reflexivity) ltac:(sz) ltac:(sz)).
    change (GetSize _) with 22. change (8 + GetSize _) with 22 in H.
    rewrite H. reflexivity.
Qed.

Lemma cross_call_carryover_witness :
  feed fresh (chunks [2; 2; 3; 1; 7; 7]%nat (s_header ++ s_messageData)) [] [] =
    Some (Returned (fresh, [mkMessage (decodeHeader s_header) s_messageData],
                    [false; false; false; false; false; true])) /\
  feed fresh [s_header ++ s_messageData] [] [] =
    Some (Returned (fresh, [mkMessage (decodeHeader s_header) s_messageData],
                    [true])).
Proof.
  apply (cross_call_carryover s_header s_messageData); reflexivity.
Defined.

(** When the last thing a call of a parser that started as new does is the
    push_back of a message, the object it leaves is the object the constructor
    builds. *)
Lemma last_push_back_resets_parser (p : MessageParser) (rawData : list byte)
    (size : Z) (msgs : list NetworkMessage) (r : CallResult) :
  reachable p -> 0 <= size < 2 ^ 32 ->
  ParseMessage p rawData size msgs = Some (Returned r) ->
  endsOnBoundary (events r) ->
  parser r = fresh.
Proof.
  intros Hp Hsize Hcall Hend.
  apply ParseMessage_inv in Hcall. destruct Hcall as (f & Hloop & ->).
  cbn [parser events] in *.
  pose proof (idle_frame_ok size p msgs (reachable_idle p Hp)) as Hok.
  apply (loop_visits rawData size _ _ _ f (visits_start _ _ _)) in Hloop.
  assert (Hb : boundary_ok f).
  { apply (visits_boundary_ok rawData size Hsize _ f Hok); [|exact Hloop].
    intros H. exfalso. exact (trace_nil_not_boundary H). }
  destruct (Hb Hend) as (t & ->). reflexivity.
Qed.

Lemma wireEvents_last (ws : list WireFrame) :
  ws <> [] -> forall off, endsOnBoundary (wireEvents off ws).
Proof.
  induction ws as [|w ws IH]; intros Hne off; [congruence|].
  cbn [wireEvents]. destruct ws as [|w1 ws1].
  - exists [Read off 8; Read (8 + off) (GetSize (snd w))],
           (mkMessage (decodeHeader (fst w)) (snd w)). reflexivity.
  - destruct (IH ltac:(discriminate) (GetSize (snd w) + (8 + off)))
      as (tr' & m & Htr).
    exists (Read off 8 :: Read (8 + off) (GetSize (snd w))
              :: Emit (mkMessage (decodeHeader (fst w)) (snd w)) :: tr'), m.
    rewrite Htr. reflexivity.
Qed.

Lemma endsOnBoundary_app (tr tr' : list event) :
  endsOnBoundary tr' -> endsOnBoundary (tr ++ tr').
Proof.
  intros (tr1 & m & ->). exists (tr ++ tr1), m. apply app_assoc.
Qed.

(** C9 - counterexample.  One call on a new parser with the 8 bytes of a
    message that has an empty payload: the chunk is a whole message and ends
    on its boundary, and the call leaves the header set and the second buffer
    active. *)
Lemma header_of_empty_message_stays_set : ~ resets_on_message_boundary.
Proof.
  intros H.
  specialize (H [emptyHeader] [(emptyHeader, [])]
                (AwaitingPayload (decodeHeader emptyHeader) [] 0) [] [false]).
  assert (Hp : AwaitingPayload (decodeHeader emptyHeader) [] 0 = fresh).
  { apply H.
    - repeat constructor.
    - reflexivity.
    - reflexivity. }
  discriminate Hp.
Qed.

(** C9 - Boundary idempotence, as the code has it.  A parser that started as
    new and holds no bytes of an incomplete header gets a chunk that ends
    exactly on a message boundary with a payload byte: the bytes that the
    message in progress still lacks (none for a parser that is between
    messages), then whole messages, the last message of the chunk with a
    payload of at least one byte.  The call returns, its last act is the
    push_back of the message its last byte completes, and the object it
    leaves is the object the constructor builds: both buffers empty, the
    first one active, no header set, the header cleared, the cursor at 0.
    Every later call therefore does what it does on a new parser. *)
Theorem message_boundary_resets_parser (p : MessageParser) (tl : list byte)
    (ws : list WireFrame) (rest : list byte) (msgs : list NetworkMessage) :
  reachable p -> carried p = 0 -> GetSize tl = owed p ->
  Forall wellFramed ws -> endsWithPayload ws -> (ws = [] -> 0 < GetSize tl) ->
  GetSize tl + GetSize (wire ws) <= INT_MAX ->
  exists r,
    ParseMessage p (tl ++ wire ws ++ rest) (GetSize tl + GetSize (wire ws))
                 msgs = Some (Returned r) /\
    endsOnBoundary (events r) /\
    parser r = fresh /\
    forall rawData' size' msgs',
      ParseMessage (parser r) rawData' size' msgs' =
      ParseMessage fresh rawData' size' msgs'.
Proof.
  intros Hp Hcar Howed Hwf Hend Hne Hint.
  pose proof (wire_size ws Hwf) as Hws8.
  pose proof (GetSize_nonneg tl) as Htl0.
  assert (Hpos : 0 < GetSize tl + GetSize (wire ws)).
  { destruct ws as [|w ws1]; [specialize (Hne eq_refl); lia|].
    cbn [length] in Hws8. lia. }
  assert (Hfuel : (length ws <= Z.to_nat (GetSize tl + GetSize (wire ws)))%nat)
    by lia.
  destruct (reachable_idle p Hp)
    as [[(b & Hb & Hb8) | (h & b & Hb & Hh & Hfit & _)] Hzero];
    rewrite Hzero in Hb; subst p.
  - (* between messages *)
    unfold carried in Hcar. unfold owed in Howed.
    cbn [AwaitingHeader m_isHeaderSet active m_activeBuffer m_firstBuffer]
      in Hcar, Howed.
    assert (Hbnil : b = []) by (apply GetSize_nil_inv; lia).
    assert (Htnil : tl = []) by (apply GetSize_nil_inv; lia).
    subst b tl. change (GetSize []) with 0 in *. cbn [app].
    assert (Hws : ws <> []) by (intros ->; specialize (Hne eq_refl); lia).
    destruct (loop_wire rest (0 + GetSize (wire ws)) ws [] 0 0 0 msgs []
                (S (Z.to_nat (0 + GetSize (wire ws)))) Hwf Hend
                eq_refl eq_refl eq_refl Hint ltac:(lia))
      as (ho' & mo' & Hloop).
    cbn [app] in Hloop.
    unfold ParseMessage, ParseMessage_fuel. rewrite Hloop.
    eexists. split; [reflexivity|]. cbn [parser events self trace].
    split; [apply wireEvents_last; exact Hws|].
    split; reflexivity.
  - (* inside a payload *)
    unfold owed in Howed.
    cbn [AwaitingPayload m_isHeaderSet m_header active m_activeBuffer
         m_secondBuffer] in Howed.
    pose proof (GetSize_nonneg b) as Hb0.
    unfold ParseMessage, ParseMessage_fuel.
    rewrite loop_step
      by (cbn [self AwaitingPayload m_totalBytesParsed]; lia).
    rewrite iteration_payload, payloadPhase_eq by (try assumption; lia).
    cbv zeta.
    replace (Z.min (GetSize tl + GetSize (wire ws))
                   (messageLength h - GetSize b))
      with (GetSize tl) by lia.
    rewrite to_int_ok by arith. rewrite to_int_ok by arith.
    rewrite fetch_prefix. cbn [bind].
    replace (GetSize b + GetSize tl =? messageLength h) with true
      by (symmetry; apply Z.eqb_eq; lia).
    rewrite (u32_small (0 + GetSize tl)) by arith.
    destruct (loop_wire rest (GetSize tl + GetSize (wire ws)) ws tl
                (0 + GetSize tl) (GetSize tl + 0) 0
                (msgs ++ [mkMessage h (b ++ tl)])
                ([] ++ [Read 0 (GetSize tl); Emit (mkMessage h (b ++ tl))])
                (Z.to_nat (GetSize tl + GetSize (wire ws))) Hwf Hend)
      as (ho' & mo' & Hloop); try lia.
    rewrite Hloop.
    eexists. split; [reflexivity|]. cbn [parser events self trace].
    split.
    + destruct ws as [|w ws1].
      * exists [Read 0 (GetSize tl)], (mkMessage h (b ++ tl)). reflexivity.
      * apply endsOnBoundary_app, wireEvents_last. discriminate.
    + split; reflexivity.
Qed.

Lemma message_boundary_resets_parser_witness :
  exists r,
    ParseMessage (AwaitingPayload (decodeHeader s_header) [] 0)
                 (s_messageData ++ wire [(s_header, s_messageData)] ++ [])
                 (GetSize s_messageData
                  + GetSize (wire [(s_header, s_messageData)]))
                 [] = Some (Returned r) /\
    endsOnBoundary (events r) /\
    parser r = fresh /\
    forall rawData' size' msgs',
      ParseMessage (parser r) rawData' size' msgs' =
      ParseMessage fresh rawData' size' msgs'.
Proof.
  apply (message_boundary_resets_parser
           (AwaitingPayload (decodeHeader s_header) [] 0) s_messageData
           [(s_header, s_messageData)] [] []).
  - apply (reachable_call fresh s_header 8 []
             (mkResult (AwaitingPayload (decodeHeader s_header) [] 0) []
                       false [Read 0 8])).
    + exact reachable_fresh.
    + lia.
    + reflexivity.
  - reflexivity.
  - reflexivity.
  - repeat constructor.
  - cbn. lia.
  - intros H. discriminate H.
  - cbn. unfold INT_MAX. lia.
Defined.

(** C10 - counterexample.  A parser that holds the header of a message with
    an empty payload gets a chunk of one byte: the first pass through the
    body emits the message, leaves the cursor at 0, and the loop goes on. *)
Lemma pending_empty_message_keeps_cursor : ~ every_iteration_advances.
Proof.
  intros H.
  pose (p := AwaitingPayload (decodeHeader emptyHeader) [] 0).
  assert (Hp : reachable p).
  { apply (reachable_call fresh emptyHeader 8 []
             (mkResult p [] false [Read 0 8]) reachable_fresh);
      [lia | reflexivity]. }
  specialize (H p [x61] 1 [] (mkFrame p 0 0 [] [])
                (mkFrame (AwaitingHeader [] 0) 0 0
                         [mkMessage (decodeHeader emptyHeader) []]
                         [Read 0 0;
                          Emit (mkMessage (decodeHeader emptyHeader) [])])
                Hp ltac:(lia) (visits_start _ _ _)
                ltac:(simpl; lia) eq_refl ltac:(simpl; lia)).
  simpl in H. lia.
Qed.

(** C10 - Termination, as the code has it.  From every state that a parser
    which started as new can be in, and for every chunk of at most INT_MAX
    bytes, the loop of ParseMessage ends after at most size + 1 passes through
    its body: the call returns or stops in undefined behaviour (a signed
    overflow on line 62, or a copy that leaves the caller's memory), and more
    fuel does not change that.  A pass that does not stop there moves
    totalBytesParsed forward, with one exception: the first pass of a call
    that finds the header of a message with an empty payload already set
    emits that message, leaves the cursor at 0 and clears isHeaderSet, so the
    next pass moves the cursor.  When the chunk has at most 2^30 bytes and the
    caller's memory holds as many bytes again after it, the call returns.
    Chunks of more than INT_MAX bytes are left out: there the conversions of
    lines 51 and 59 depend on the implementation (see [to_int]). *)
Theorem ParseMessage_terminates (p : MessageParser) (rawData : list byte)
    (size : Z) (msgs : list NetworkMessage) :
  reachable p -> 0 <= size <= INT_MAX ->
  (exists o, ParseMessage p rawData size msgs = Some o /\
     forall n, (S (Z.to_nat size) <= n)%nat ->
               ParseMessage_fuel n p rawData size msgs = Some o) /\
  (forall f f',
     visits rawData size (mkFrame p 0 0 msgs []) f ->
     m_totalBytesParsed (self f) < size ->
     iteration rawData size f = Returned f' ->
     m_totalBytesParsed (self f) < m_totalBytesParsed (self f') \/
     f = mkFrame p 0 0 msgs [] /\
     m_isHeaderSet p = true /\
     messageLength (m_header p) = 0 /\
     f' = mkFrame (AwaitingHeader [] 0) 0 0
                  (msgs ++ [mkMessage (m_header p) []])
                  [Read 0 0; Emit (mkMessage (m_header p) [])]) /\
  (size <= 2 ^ 30 -> 2 * size <= Z.of_nat (length rawData) ->
   exists r, ParseMessage p rawData size msgs = Some (Returned r)).
Proof.
  intros Hp Hint.
  assert (Hsize : 0 <= size < 2 ^ 32) by arith.
  pose proof (idle_frame_ok size p msgs (reachable_idle p Hp)) as Hok.
  assert (Hfuel : exists o,
            loop rawData size (S (Z.to_nat size)) (mkFrame p 0 0 msgs [])
            = Some o).
  { apply (loop_fuel_enough rawData size Hsize _ _ Hok).
    intros _. unfold budget. cbn [self].
    destruct (reachable_idle p Hp) as [_ ->].
    destruct (m_isHeaderSet p); lia. }
  destruct Hfuel as (o & Ho).
  split; [|split].
  - unfold ParseMessage, ParseMessage_fuel. rewrite Ho.
    destruct o as [f|]; (eexists; split; [reflexivity|]); intros n Hn;
      rewrite (loop_fuel_mono rawData size _ _ _ Ho n Hn); reflexivity.
  - intros f f' Hv Hlt Hit.
    pose proof (visits_frame_ok rawData size Hsize _ f Hok Hv) as Hf.
    destruct (iteration_ok rawData size f f' Hsize Hf Hlt Hit)
      as (_ & _ & [Hup | (Hset & Hlen & _ & _)] & _); [left; exact Hup|].
    right.
    assert (Hstart : f = mkFrame p 0 0 msgs []).
    { inversion Hv as [|g g' Hvg Hltg Hitg]; [reflexivity|]. subst g'.
      pose proof (visits_frame_ok rawData size Hsize _ g Hok Hvg) as Hg.
      destruct (iteration_ok rawData size g f Hsize Hg Hltg Hitg)
        as (_ & [Hover | (t' & Ht')] & _); [lia|].
      rewrite Ht' in Hset. discriminate Hset. }
    subst f. cbn [self] in Hset, Hlen, Hlt.
    destruct (reachable_idle p Hp)
      as [[(b & Hb & _) | (h & b & Hb & _ & Hfit & _)] Hzero].
    + rewrite Hb in Hset. discriminate Hset.
    + rewrite Hzero in Hb. rewrite Hb in Hlen, Hit |- *.
      cbn [AwaitingPayload m_isHeaderSet m_header] in Hlen |- *.
      assert (Hnil : b = []) by (apply GetSize_nil_inv; lia). subst b.
      rewrite iteration_pending_empty in Hit by lia.
      ret_inv Hit f'. repeat split; assumption.
  - intros H30 Hmem. unfold ParseMessage, ParseMessage_fuel. rewrite Ho.
    destruct o as [f|].
    + eexists. reflexivity.
    + exfalso.
      apply (loop_returns rawData size (S (Z.to_nat size))
               ltac:(lia) Hmem _ Hok); [|exact Ho].
      unfold pos. cbn [self headerOffset messageOffset].
      destruct (reachable_idle p Hp) as [_ ->].
      destruct (m_isHeaderSet p); lia.
Qed.

Lemma ParseMessage_terminates_witness :
  (exists o, ParseMessage fresh (s_header ++ s_messageData) 22 [] = Some o /\
     forall n, (S (Z.to_nat 22) <= n)%nat ->
               ParseMessage_fuel n fresh (s_header ++ s_messageData) 22 []
               = Some o) /\
  (forall f f',
     visits (s_header ++ s_messageData) 22 (mkFrame fresh 0 0 [] []) f ->
     m_totalBytesParsed (self f) < 22 ->
     iteration (s_header ++ s_messageData) 22 f = Returned f' ->
     m_totalBytesParsed (self f) < m_totalBytesParsed (self f') \/
     f = mkFrame fresh 0 0 [] [] /\
     m_isHeaderSet fresh = true /\
     messageLength (m_header fresh) = 0 /\
     f' = mkFrame (AwaitingHeader [] 0) 0 0
                  ([] ++ [mkMessage (m_header fresh) []])
                  [Read 0 0; Emit (mkMessage (m_header fresh) [])]) /\
  (22 <= 2 ^ 30 ->
   2 * 22 <= Z.of_nat (length (s_header ++ s_messageData)) ->
   exists r, ParseMessage fresh (s_header ++ s_messageData) 22 []
             = Some (Returned r)).
Proof.
  apply (ParseMessage_terminates fresh (s_header ++ s_messageData) 22 []).
  - exact reachable_fresh.
  - unfold INT_MAX. lia.
Defined.

(** * Further properties of the code *)

(** ** The object between calls *)

(** X1 - Double buffering.  Between two calls of a parser that started as new
    the cursor is 0 and the buffer that is not active is empty.  While no
    header is set the first buffer is active and holds fewer than 8 bytes;
    while a header is set the second buffer is active and holds no more bytes
    than the header declares, and as many only when the header declares
    none. *)
Theorem reachable_invariant (p : MessageParser) :
  reachable p ->
  m_totalBytesParsed p = 0 /\
  (m_isHeaderSet p = false ->
     m_activeBuffer p = FirstBuffer /\ m_secondBuffer p = [] /\
     GetSize (m_firstBuffer p) < s_headerSize /\ m_header p = Clear) /\
  (m_isHeaderSet p = true ->
     m_activeBuffer p = SecondBuffer /\ m_firstBuffer p = [] /\
     0 <= messageLength (m_header p) < 2 ^ 32 /\
     GetSize (m_secondBuffer p) <= messageLength (m_header p) /\
     (GetSize (m_secondBuffer p) = messageLength (m_header p) ->
      messageLength (m_header p) = 0)).
Proof.
  intros Hp. destruct (reachable_idle p Hp) as [Hshape Hzero].
  split; [exact Hzero|].
  destruct Hshape as [(b & -> & Hb) | (h & b & -> & Hh & Hb & Hfull)];
    cbn [AwaitingHeader AwaitingPayload m_isHeaderSet m_activeBuffer
         m_firstBuffer m_secondBuffer m_header];
    split; intros Hset; try discriminate Hset; repeat split;
    try assumption; try apply Hh.
Qed.

Lemma reachable_invariant_witness :
  m_totalBytesParsed (AwaitingPayload (decodeHeader s_header) [] 0) = 0 /\
  (m_isHeaderSet (AwaitingPayload (decodeHeader s_header) [] 0) = false ->
     m_activeBuffer (AwaitingPayload (decodeHeader s_header) [] 0)
       = FirstBuffer /\
     m_secondBuffer (AwaitingPayload (decodeHeader s_header) [] 0) = [] /\
     GetSize (m_firstBuffer (AwaitingPayload (decodeHeader s_header) [] 0))
       < s_headerSize /\
     m_header (AwaitingPayload (decodeHeader s_header) [] 0) = Clear) /\
  (m_isHeaderSet (AwaitingPayload (decodeHeader s_header) [] 0) = true ->
     m_activeBuffer (AwaitingPayload (decodeHeader s_header) [] 0)
       = SecondBuffer /\
     m_firstBuffer (AwaitingPayload (decodeHeader s_header) [] 0) = [] /\
     0 <= messageLength
            (m_header (AwaitingPayload (decodeHeader s_header) [] 0))
       < 2 ^ 32 /\
     GetSize (m_secondBuffer (AwaitingPayload (decodeHeader s_header) [] 0))
       <= messageLength
            (m_header (AwaitingPayload (decodeHeader s_header) [] 0)) /\
     (GetSize (m_secondBuffer (AwaitingPayload (decodeHeader s_header) [] 0))
        = messageLength
            (m_header (AwaitingPayload (decodeHeader s_header) [] 0)) ->
      messageLength
        (m_header (AwaitingPayload (decodeHeader s_header) [] 0)) = 0)).
Proof.
  apply (reachable_invariant (AwaitingPayload (decodeHeader s_header) [] 0)).
  apply (reachable_call fresh s_header 8 []
           (mkResult (AwaitingPayload (decodeHeader s_header) [] 0) [] false
                     [Read 0 8]) reachable_fresh).
  - lia.
  - reflexivity.
Defined.

(** X2 - Empty chunk.  A call with size = 0 on a parser that started as new
    copies nothing, emits nothing and leaves the parser as it is; it returns
    whether the vector holds a message. *)
Theorem empty_chunk_is_a_no_op (p : MessageParser) (rawData : list byte)
    (msgs : list NetworkMessage) :
  reachable p ->
  ParseMessage p rawData 0 msgs =
  Some (Returned (mkResult p msgs (negb (isEmpty msgs)) [])).
Proof.
  intros Hp. destruct (reachable_idle p Hp) as [_ Hzero].
  unfold ParseMessage, ParseMessage_fuel.
  rewrite loop_done by (cbn [self]; lia). cbn [self messages trace].
  destruct p as [fb sb ab hs h t]. cbn [m_totalBytesParsed] in Hzero.
  subst t. reflexivity.
Qed.

Lemma empty_chunk_is_a_no_op_witness :
  ParseMessage (AwaitingPayload (decodeHeader s_header) [] 0) [] 0 [s_message] =
  Some (Returned (mkResult (AwaitingPayload (decodeHeader s_header) [] 0)
                           [s_message] (negb (isEmpty [s_message])) [])).
Proof.
  apply (empty_chunk_is_a_no_op
           (AwaitingPayload (decodeHeader s_header) [] 0) [] [s_message]).
  apply (reachable_call fresh s_header 8 []
           (mkResult (AwaitingPayload (decodeHeader s_header) [] 0) [] false
                     [Read 0 8]) reachable_fresh).
  - lia.
  - reflexivity.
Defined.

(** ** What a call emits *)

Lemma appends_refl (P : event -> Prop) (f : Frame) : appends P f f.
Proof. exists []. rewrite app_nil_r. split; [reflexivity | constructor]. Qed.

Lemma appends_trans (P : event -> Prop) (f g h : Frame) :
  appends P f g -> appends P g h -> appends P f h.
Proof.
  intros (e1 & Ht1 & H1) (e2 & Ht2 & H2). exists (e1 ++ e2).
  rewrite Ht2, Ht1, app_assoc. split; [reflexivity|].
  apply Forall_app. split; assumption.
Qed.

Lemma m_header_setActive (p : MessageParser) (b : Buffer) :
  m_header (setActive p b) = m_header p.
Proof. unfold setActive. destruct (m_activeBuffer p); reflexivity. Qed.

Section Fitting.

Variable rawData : list byte.
Variable size : Z.

Lemma headerPhase_fitting (f f' : Frame) :
  headerPhase rawData size f = Returned f' -> appends emitsFitting f f'.
Proof.
  unfold headerPhase. intros H.
  bind_inv H startSize Es. bind_inv H src Ef. cbv zeta in H.
  match type of H with
  | (if ?c then _ else _) = _ => destruct c
  end.
  - bind_inv H ho' Eh. ret_inv H f'.
    eexists. cbn [trace]. split; [reflexivity|].
    repeat constructor.
  - ret_inv H f'.
    eexists. cbn [trace]. split; [reflexivity|].
    repeat constructor.
Qed.

Lemma payloadPhase_fitting (f f' : Frame) :
  payloadPhase rawData size f = Returned f' -> appends emitsFitting f f'.
Proof.
  unfold payloadPhase. intros H. cbv zeta in H.
  bind_inv H sizeToCopy Es. bind_inv H mo Em. bind_inv H src Ef.
  match type of H with
  | (if ?c then _ else _) = _ => destruct c eqn:Efull
  end.
  - ret_inv H f'.
    eexists. cbn [trace]. rewrite trace_app_assoc.
    split; [reflexivity|].
    constructor; [exact I|]. constructor; [|constructor].
    apply Z.eqb_eq in Efull.
    unfold emitsFitting, fits. cbn [messageData header setTotal m_header].
    rewrite m_header_setActive. unfold GetData.
    rewrite firstn_whole by exact Efull. exact Efull.
  - ret_inv H f'.
    eexists. cbn [trace]. split; [reflexivity|].
    repeat constructor.
Qed.

Lemma iteration_fitting (f f' : Frame) :
  iteration rawData size f = Returned f' -> appends emitsFitting f f'.
Proof.
  unfold iteration. intros H. bind_inv H f1 E1.
  assert (H1 : appends emitsFitting f f1).
  { destruct (m_isHeaderSet (self f)).
    - ret_inv E1 f1. apply appends_refl.
    - apply headerPhase_fitting. exact E1. }
  destruct (m_isHeaderSet (self f1) && (m_totalBytesParsed (self f1) <? size)).
  - apply (appends_trans _ f f1 f'); [exact H1|].
    apply payloadPhase_fitting. exact H.
  - ret_inv H f'. exact H1.
Qed.

Lemma loop_fitting (n : nat) :
  forall f f', loop rawData size n f = Some (Returned f') ->
  appends emitsFitting f f'.
Proof.
  induction n as [|n IH]; intros f f' H;
    destruct (Z_lt_ge_dec (m_totalBytesParsed (self f)) size) as [Hlt | Hge].
  - rewrite loop_out_of_fuel in H by exact Hlt. discriminate H.
  - rewrite loop_done in H by lia. ret_inv H f'. apply appends_refl.
  - rewrite loop_step in H by exact Hlt.
    destruct (iteration rawData size f) as [f1|] eqn:E; [|discriminate H].
    apply (appends_trans _ f f1 f'); [|apply IH; exact H].
    apply iteration_fitting. exact E.
  - rewrite loop_done in H by lia. ret_inv H f'. apply appends_refl.
Qed.

End Fitting.

Lemma completed_fitting (evs : list event) :
  Forall emitsFitting evs -> Forall fits (completed evs).
Proof.
  induction 1 as [|[off n|m] evs He _ IH]; cbn [completed].
  - constructor.
  - exact IH.
  - constructor; [exact He | exact IH].
Qed.

(** X3 - Emitted messages fit their headers.  Whatever state the parser is
    in and whatever the chunk is, every message that a call pushes on the
    vector has a payload of exactly the messageLength bytes of its header. *)
Theorem emitted_messages_fit (p : MessageParser) (rawData : list byte)
    (size : Z) (msgs : list NetworkMessage) (r : CallResult) :
  ParseMessage p rawData size msgs = Some (Returned r) ->
  Forall fits (completed (events r)) /\
  output r = msgs ++ completed (events r).
Proof.
  intros H. apply ParseMessage_inv in H. destruct H as (f & Hloop & ->).
  cbn [events output]. split.
  - apply loop_fitting in Hloop. destruct Hloop as (evs & Ht & Hall).
    cbn [trace app] in Ht. rewrite Ht. apply completed_fitting. exact Hall.
  - apply loop_grows in Hloop. destruct Hloop as (evs & Ht & Hm).
    cbn [trace messages app] in Ht, Hm. rewrite Ht. exact Hm.
Qed.

Lemma emitted_messages_fit_witness :
  Forall fits
    (completed (events (mkResult fresh
       [mkMessage (mkHeader 1 14) (firstn 7 s_messageData ++ repeat x00 7)]
       true
       [Read 0 8; Read 8 14;
        Emit (mkMessage (mkHeader 1 14)
                        (firstn 7 s_messageData ++ repeat x00 7))]))) /\
  output (mkResult fresh
       [mkMessage (mkHeader 1 14) (firstn 7 s_messageData ++ repeat x00 7)]
       true
       [Read 0 8; Read 8 14;
        Emit (mkMessage (mkHeader 1 14)
                        (firstn 7 s_messageData ++ repeat x00 7))]) =
  [] ++ completed (events (mkResult fresh
       [mkMessage (mkHeader 1 14) (firstn 7 s_messageData ++ repeat x00 7)]
       true
       [Read 0 8; Read 8 14;
        Emit (mkMessage (mkHeader 1 14)
                        (firstn 7 s_messageData ++ repeat x00 7))])).
Proof.
  apply (emitted_messages_fit fresh
           (firstn 15 (s_header ++ s_messageData) ++ repeat x00 7) 15 []).
  reflexivity.
Defined.

(** ** How far a call reads *)

Ltac window_tail :=
  eexists; split;
  [cbn [trace]; rewrite <- ?app_assoc; reflexivity|];
  cbn [app];
  repeat (apply Forall_cons; [cbn [withinTwice]; try exact I; arith|]);
  apply Forall_nil.

(** One pass through the body keeps the place of the next copy at or before
    the cursor, and copies from inside the first [2 * size - 1] bytes. *)
Lemma iteration_window (rawData : list byte) (size : Z) (f f' : Frame) :
  0 <= size < 2 ^ 32 ->
  frame_ok size f ->
  pos f <= m_totalBytesParsed (self f) ->
  m_totalBytesParsed (self f) < size ->
  iteration rawData size f = Returned f' ->
  pos f' <= m_totalBytesParsed (self f') /\
  appends (withinTwice size) f f'.
Proof.
  intros Hsize (Hshape & Hho & Hmo & Ht0 & Hpos) Hle Hlt Hit.
  specialize (Hpos Hlt). destruct Hpos as [Hpos Hact].
  destruct f as [p ho mo msgs tr]. unfold pos in *.
  cbn [self headerOffset messageOffset] in *.
  destruct Hshape as [(b & Hp & Hb) | (h & b & Hp & Hh & Hb & Hfull)].
  - set (t := m_totalBytesParsed p) in *. rewrite Hp in Hit, Hpos, Hact, Hle.
    cbn [self AwaitingHeader m_isHeaderSet active m_activeBuffer
         m_firstBuffer messageOffset] in Hpos, Hact, Hle.
    specialize (Hact eq_refl).
    pose proof (GetSize_nonneg b) as Hb0.
    assert (Hbt : GetSize b = 0 \/ t = 0).
    { destruct Hact as [-> | ->]; [left; reflexivity | right; reflexivity]. }
    rewrite iteration_header in Hit.
    rewrite headerPhase_eq in Hit by arith.
    cbv zeta in Hit. bind_inv Hit f1 Hf1. bind_inv Hf1 src Hsrc.
    apply fetch_inv in Hsrc. destruct Hsrc as (_ & Hc0 & _ & Hsrc & _).
    destruct (GetSize b + Z.min (size - t) (8 - GetSize b) =? 8) eqn:E8.
    + apply Z.eqb_eq in E8. bind_inv Hf1 ho' Hho'.
      apply to_int_inv in Hho'. destruct Hho' as [-> Hho'].
      rewrite (u32_small mo) in Hho', Hf1 by arith.
      rewrite (u32_small (8 - GetSize b + mo)) in Hho', Hf1 by arith.
      rewrite (u32_small (t + 8)) in Hf1 by arith.
      ret_inv Hf1 f1.
      cbn [self AwaitingPayload m_isHeaderSet m_totalBytesParsed andb] in Hit.
      pose proof (le32_range (skipn 4 (b ++ src))) as Hlen.
      destruct (t + 8 <? size) eqn:Elt.
      * apply Z.ltb_lt in Elt.
        rewrite payloadPhase_eq in Hit
          by (cbn [decodeHeader messageLength]; change (GetSize []) with 0;
              arith).
        cbn [decodeHeader messageLength] in Hit.
        change (GetSize []) with 0 in Hit. rewrite Z.sub_0_r in Hit.
        cbv zeta in Hit. bind_inv Hit k Hk.
        apply to_int_inv in Hk. destruct Hk as [_ Hk].
        bind_inv Hit mo' Hmo'. apply to_int_inv in Hmo'.
        destruct Hmo' as [-> Hmo'].
        bind_inv Hit src2 Hsrc2. apply fetch_inv in Hsrc2.
        destruct Hsrc2 as (_ & Hk0 & _ & Hsrc2 & _).
        rewrite (u32_small (t + 8 + _)) in Hit by arith.
        destruct (0 + Z.min size (le32 (skipn 4 (b ++ src)))
                  =? le32 (skipn 4 (b ++ src))) eqn:Ek;
          ret_inv Hit f';
          cbn [self AwaitingHeader AwaitingPayload m_totalBytesParsed
               m_isHeaderSet headerOffset messageOffset];
          (split; [arith | window_tail]).
      * apply Z.ltb_ge in Elt. ret_inv Hit f'.
        cbn [self AwaitingPayload m_totalBytesParsed m_isHeaderSet
             headerOffset].
        split; [arith | window_tail].
    + apply Z.eqb_neq in E8.
      rewrite (u32_small (t + _)) in Hf1 by arith.
      ret_inv Hf1 f1.
      cbn [self AwaitingHeader m_isHeaderSet andb] in Hit.
      ret_inv Hit f'.
      cbn [self AwaitingHeader m_totalBytesParsed m_isHeaderSet
           messageOffset].
      split; [arith | window_tail].
  - set (t := m_totalBytesParsed p) in *. rewrite Hp in Hit, Hpos, Hle.
    cbn [self AwaitingPayload m_isHeaderSet headerOffset] in Hpos, Hle.
    pose proof (GetSize_nonneg b) as Hb0.
    rewrite iteration_payload in Hit by exact Hlt.
    rewrite payloadPhase_eq in Hit by assumption.
    cbv zeta in Hit. bind_inv Hit k Hk.
    apply to_int_inv in Hk. destruct Hk as [_ Hk].
    bind_inv Hit mo' Hmo'. apply to_int_inv in Hmo'. destruct Hmo' as [-> Hmo'].
    bind_inv Hit src2 Hsrc2. apply fetch_inv in Hsrc2.
    destruct Hsrc2 as (_ & Hk0 & _ & Hsrc2 & _).
    rewrite (u32_small (t + _)) in Hit by arith.
    destruct (GetSize b + Z.min size (messageLength h - GetSize b)
              =? messageLength h) eqn:Ek;
      ret_inv Hit f';
      cbn [self AwaitingHeader AwaitingPayload m_totalBytesParsed
           m_isHeaderSet headerOffset messageOffset];
      (split; [arith | window_tail]).
Qed.

(** X4 - Read window.  A call of a parser that started as new copies only
    from inside the first 2 * size - 1 bytes of rawData, never from before
    rawData: a copy may go past the chunk, but by fewer than size bytes. *)
Theorem reads_stay_within_twice_size (p : MessageParser)
    (rawData : list byte) (size : Z) (msgs : list NetworkMessage)
    (r : CallResult) :
  reachable p -> 0 <= size < 2 ^ 32 ->
  ParseMessage p rawData size msgs = Some (Returned r) ->
  Forall (withinTwice size) (events r).
Proof.
  intros Hp Hsize Hcall. apply ParseMessage_inv in Hcall.
  destruct Hcall as (f & Hloop & ->). cbn [events].
  pose proof (reachable_idle p Hp) as Hidle.
  apply (loop_visits rawData size _ _ _ f (visits_start _ _ _)) in Hloop.
  assert (H : frame_ok size f /\ pos f <= m_totalBytesParsed (self f) /\
              Forall (withinTwice size) (trace f)).
  { revert Hloop.
    apply (visits_invariant rawData size
             (fun g => frame_ok size g /\
                       pos g <= m_totalBytesParsed (self g) /\
                       Forall (withinTwice size) (trace g))).
    - intros g g' (Hok & Hle & Hall) Hlt Hit.
      destruct (iteration_window rawData size g g' Hsize Hok Hle Hlt Hit)
        as (Hle' & evs & Ht & Hevs).
      split; [|split].
      + apply (iteration_ok rawData size g g' Hsize Hok Hlt Hit).
      + exact Hle'.
      + rewrite Ht. apply Forall_app. split; assumption.
    - split; [apply idle_frame_ok; exact Hidle|]. split; [|constructor].
      unfold pos. cbn [self headerOffset messageOffset].
      destruct Hidle as [_ ->]. destruct (m_isHeaderSet p); lia. }
  apply H.
Qed.

Lemma reads_stay_within_twice_size_witness :
  Forall (withinTwice 11)
    (events (mkResult
       (AwaitingPayload (mkHeader 1 14)
                        (firstn 3 s_messageData ++ repeat x00 8) 0)
       [] false [Read 0 8; Read 8 11])).
Proof.
  apply (reads_stay_within_twice_size fresh
           (firstn 11 (s_header ++ s_messageData) ++ repeat x00 8) 11 []).
  - exact reachable_fresh.
  - lia.
  - reflexivity.
Defined.

(** ** Chunks that the two phases share *)

Lemma fetch_after (a b : list byte) (n : Z) :
  0 <= n <= GetSize b ->
  fetch (a ++ b) (GetSize a) n = Returned (firstn (Z.to_nat n) b).
Proof.
  intros Hn. unfold GetSize in *. rewrite fetch_ok; try lia.
  - rewrite Nat2Z.id, skipn_app, skipn_all, Nat.sub_diag. reflexivity.
  - rewrite length_app. lia.
Qed.

Lemma fetch_beyond (a b : list byte) (n : Z) :
  GetSize b < n -> fetch (a ++ b) (GetSize a) n = Undefined.
Proof.
  intros Hn. unfold fetch, GetSize in *. rewrite length_app.
  replace (Z.of_nat (length a) + n <=? Z.of_nat (length a + length b))
    with false by (symmetry; apply Z.leb_gt; lia).
  rewrite andb_false_r. reflexivity.
Qed.

(** The first pass of a call on a new parser whose chunk has the 8 bytes of a
    header and more bytes: the payload phase asks for the smaller of [size]
    and the declared length, from offset 8. *)
Lemma iteration_header_and_more (hdr more : list byte) (size : Z)
    (msgs : list NetworkMessage) :
  GetSize hdr = 8 -> 8 < size -> size + 8 <= INT_MAX ->
  iteration (hdr ++ more) size (mkFrame (AwaitingHeader [] 0) 0 0 msgs []) =
  (let h := decodeHeader hdr in
   let n := Z.min size (messageLength h) in
   src <- fetch (hdr ++ more) 8 n ;;
   if n =? messageLength h then
     Returned (mkFrame (AwaitingHeader [] (8 + n)) 8 (n + 8)
                       (msgs ++ [mkMessage h src])
                       [Read 0 8; Read 8 n; Emit (mkMessage h src)])
   else
     Returned (mkFrame (AwaitingPayload h src (8 + n)) 8 (n + 8) msgs
                       [Read 0 8; Read 8 n])).
Proof.
  intros H8 Hs Hint.
  pose proof (le32_range (skipn 4 hdr)) as Hlen.
  rewrite iteration_header, headerPhase_eq
    by (change (GetSize []) with 0; arith).
  cbv zeta. change (GetSize []) with 0.
  replace (Z.min (size - 0) (8 - 0)) with (GetSize hdr) by lia.
  rewrite fetch_prefix. cbn [bind app]. rewrite H8.
  change (0 + 8 =? 8) with true. cbv iota.
  rewrite (u32_small 0), (u32_small (8 - 0 + 0)), (u32_small (0 + 8)),
    to_int_ok by arith.
  cbn [bind self AwaitingPayload m_isHeaderSet m_totalBytesParsed andb].
  change (0 + 8) with 8.
  replace (8 <? size) with true by (symmetry; apply Z.ltb_lt; lia).
  rewrite payloadPhase_eq
    by (cbn [decodeHeader messageLength]; change (GetSize []) with 0; arith).
  cbv zeta. change (GetSize []) with 0. rewrite Z.sub_0_r.
  cbn [decodeHeader messageLength] in *.
  rewrite to_int_ok by arith. rewrite to_int_ok by arith. cbn [bind].
  change (8 - 0 + 0) with 8.
  destruct (fetch (hdr ++ more) 8 (Z.min size (le32 (skipn 4 hdr))))
    as [src|]; [|reflexivity].
  cbn [bind app]. rewrite Z.add_0_l.
  rewrite (u32_small (8 + _)) by arith. reflexivity.
Qed.

(** X5 - A header and a part of its payload in one chunk.  On a new parser, a
    chunk with the 8 bytes of a header that declares L payload bytes and k of
    them, 0 < k < L, makes the payload phase copy min(size, L) bytes from
    offset 8, which is between 1 and 8 bytes more than the chunk has.  When
    the caller's memory ends before that, the copy leaves it.  Otherwise the
    bytes behind the chunk go into the payload buffer: with L <= size the
    call emits a message made of the k payload bytes and L - k bytes from
    behind the chunk; with size < L it keeps size bytes, 8 of them from
    behind the chunk, as the payload so far. *)
Theorem header_with_partial_payload (hdr part rest : list byte)
    (msgs : list NetworkMessage) :
  let h := decodeHeader hdr in
  let size := 8 + GetSize part in
  let n := Z.min size (messageLength h) in
  let data := part ++ firstn (Z.to_nat (n - GetSize part)) rest in
  GetSize hdr = 8 -> 0 < GetSize part < messageLength h ->
  size + 8 <= INT_MAX ->
  0 < n - GetSize part <= 8 /\
  (GetSize rest < n - GetSize part ->
   ParseMessage fresh (hdr ++ part ++ rest) size msgs = Some Undefined) /\
  (n - GetSize part <= GetSize rest -> messageLength h <= size ->
   ParseMessage fresh (hdr ++ part ++ rest) size msgs =
   Some (Returned (mkResult fresh (msgs ++ [mkMessage h data]) true
                    [Read 0 8; Read 8 (messageLength h);
                     Emit (mkMessage h data)]))) /\
  (n - GetSize part <= GetSize rest -> size < messageLength h ->
   ParseMessage fresh (hdr ++ part ++ rest) size msgs =
   Some (Returned (mkResult (AwaitingPayload h data 0) msgs
                            (negb (isEmpty msgs))
                            [Read 0 8; Read 8 size]))).
Proof.
  intros h size n data H8 Hk Hint.
  pose proof (GetSize_nonneg part) as Hp0.
  pose proof (GetSize_nonneg rest) as Hr0.
  assert (Hit := iteration_header_and_more hdr (part ++ rest) size msgs H8
                   ltac:(unfold size; lia) Hint).
  cbv zeta in Hit. fold h in Hit. fold n in Hit.
  replace (fetch (hdr ++ part ++ rest) 8 n)
    with (fetch (hdr ++ part ++ rest) (GetSize hdr) n) in Hit
    by (rewrite H8; reflexivity).
  assert (Hs0 : 0 < size) by (unfold size; lia).
  split; [unfold n, size; lia|]. split; [|split].
  - intros Hshort.
    rewrite fetch_beyond in Hit
      by (rewrite GetSize_app; unfold n, size in *; lia).
    cbn [bind] in Hit.
    unfold ParseMessage, ParseMessage_fuel. change fresh with (AwaitingHeader [] 0).
    rewrite loop_step by (cbn [self AwaitingHeader m_totalBytesParsed];
                          unfold size; lia).
    rewrite Hit. reflexivity.
  - intros Hmem Hfull.
    assert (Hn : n = messageLength h) by (unfold n; lia).
    rewrite fetch_after in Hit
      by (rewrite GetSize_app; unfold n, size in *; lia).
    cbn [bind] in Hit. rewrite Hn, Z.eqb_refl in Hit.
    assert (Hdata : firstn (Z.to_nat (messageLength h)) (part ++ rest) = data).
    { unfold data. rewrite Hn, firstn_app. f_equal.
      - apply firstn_all2. unfold GetSize in *. lia.
      - f_equal. unfold GetSize. lia. }
    rewrite Hdata in Hit.
    change fresh with (AwaitingHeader [] 0) at 1.
    rewrite (call_of_one_iteration (AwaitingHeader [] 0) _ _ _ _ eq_refl
               Hs0 Hit)
      by (cbn [self AwaitingHeader m_totalBytesParsed]; unfold size; lia).
    cbn [self messages trace].
    replace (negb (isEmpty (msgs ++ [mkMessage h data]))) with true
      by (destruct msgs; reflexivity).
    reflexivity.
  - intros Hmem Hpart.
    assert (Hn : n = size) by (unfold n; lia).
    rewrite fetch_after in Hit
      by (rewrite GetSize_app; unfold n, size in *; lia).
    cbn [bind] in Hit. rewrite Hn in Hit.
    replace (size =? messageLength h) with false in Hit
      by (symmetry; apply Z.eqb_neq; lia).
    assert (Hdata : firstn (Z.to_nat size) (part ++ rest) = data).
    { unfold data. rewrite Hn, firstn_app. f_equal.
      - apply firstn_all2. unfold size, GetSize in *. lia.
      - f_equal. unfold size, GetSize. lia. }
    rewrite Hdata in Hit.
    change fresh with (AwaitingHeader [] 0) at 1.
    rewrite (call_of_one_iteration (AwaitingHeader [] 0) _ _ _ _ eq_refl
               Hs0 Hit)
      by (cbn [self AwaitingPayload m_totalBytesParsed]; unfold size; lia).
    reflexivity.
Qed.

Lemma header_with_partial_payload_witness :
  let hdr := s_header in
  let part := firstn 7 s_messageData in
  let rest := repeat x00 7 in
  let h := decodeHeader hdr in
  let size := 8 + GetSize part in
  let n := Z.min size (messageLength h) in
  let data := part ++ firstn (Z.to_nat (n - GetSize part)) rest in
  0 < n - GetSize part <= 8 /\
  (GetSize rest < n - GetSize part ->
   ParseMessage fresh (hdr ++ part ++ rest) size [] = Some Undefined) /\
  (n - GetSize part <= GetSize rest -> messageLength h <= size ->
   ParseMessage fresh (hdr ++ part ++ rest) size [] =
   Some (Returned (mkResult fresh ([] ++ [mkMessage h data]) true
                    [Read 0 8; Read 8 (messageLength h);
                     Emit (mkMessage h data)]))) /\
  (n - GetSize part <= GetSize rest -> size < messageLength h ->
   ParseMessage fresh (hdr ++ part ++ rest) size [] =
   Some (Returned (mkResult (AwaitingPayload h data 0) [] false
                            [Read 0 8; Read 8 size]))).
Proof.
  apply (header_with_partial_payload s_header (firstn 7 s_messageData)
           (repeat x00 7) []).
  - reflexivity.
  - cbn. lia.
  - cbn. unfold INT_MAX. lia.
Defined.

(** X6 - Header bytes kept from earlier calls hide the bytes after the
    header.  A parser that holds s bytes of a header, 0 < s < 8, gets a chunk
    with the other 8 - s header bytes and m more bytes, 0 < m <= s.  The call
    completes the header, adds the 8 bytes of the header buffer to the cursor
    and ends: the m bytes after the header are never copied. *)
Theorem carried_header_hides_short_tail (b hrest more rest : list byte)
    (msgs : list NetworkMessage) :
  0 < GetSize b -> 0 < GetSize hrest -> GetSize b + GetSize hrest = 8 ->
  0 < GetSize more <= GetSize b ->
  ParseMessage (AwaitingHeader b 0) (hrest ++ more ++ rest)
               (GetSize hrest + GetSize more) msgs =
  Some (Returned (mkResult (AwaitingPayload (decodeHeader (b ++ hrest)) [] 0)
                           msgs (negb (isEmpty msgs))
                           [Read 0 (GetSize hrest)])) /\
  consumed [Read 0 (GetSize hrest)] < GetSize hrest + GetSize more.
Proof.
  intros Hb Hh0 H8 Hm.
  split; [|cbn [consumed]; lia].
  rewrite (call_of_one_iteration _ _ _ _
    (mkFrame (AwaitingPayload (decodeHeader (b ++ hrest)) [] 8)
             (GetSize hrest) 0 msgs [Read 0 (GetSize hrest)]));
    try reflexivity; try (cbn [self AwaitingPayload m_totalBytesParsed]; lia).
  rewrite iteration_header, headerPhase_eq by arith. cbv zeta.
  replace (Z.min (GetSize hrest + GetSize more - 0) (8 - GetSize b))
    with (GetSize hrest) by lia.
  rewrite fetch_prefix. cbn [bind].
  replace (GetSize b + GetSize hrest =? 8) with true
    by (symmetry; apply Z.eqb_eq; lia).
  rewrite (u32_small 0), (u32_small (8 - _ + 0)), (u32_small (0 + 8)),
    to_int_ok by arith.
  cbn [bind self AwaitingPayload m_isHeaderSet m_totalBytesParsed andb app].
  change (0 + 8) with 8.
  replace (8 <? GetSize hrest + GetSize more) with false
    by (symmetry; apply Z.ltb_ge; lia).
  replace (8 - GetSize b + 0) with (GetSize hrest) by lia. reflexivity.
Qed.

Lemma carried_header_hides_short_tail_witness :
  ParseMessage (AwaitingHeader (firstn 2 s_header) 0)
               (skipn 2 s_header ++ firstn 1 s_messageData ++ [])
               (GetSize (skipn 2 s_header) + GetSize (firstn 1 s_messageData))
               [] =
  Some (Returned (mkResult
          (AwaitingPayload
             (decodeHeader (firstn 2 s_header ++ skipn 2 s_header)) [] 0)
          [] (negb (isEmpty (@nil NetworkMessage)))
          [Read 0 (GetSize (skipn 2 s_header))])) /\
  consumed [Read 0 (GetSize (skipn 2 s_header))]
  < GetSize (skipn 2 s_header) + GetSize (firstn 1 s_messageData).
Proof.
  apply (carried_header_hides_short_tail (firstn 2 s_header)
           (skipn 2 s_header) (firstn 1 s_messageData) [] []).
  - cbn. lia.
  - cbn. lia.
  - reflexivity.
  - cbn. lia.
Defined.

(** ** Chunks that end inside a header *)

(** The loop on whole frames that more bytes of the chunk may follow: one
    pass through the body for each frame. *)
Lemma loop_wire_more (rest : list byte) (size : Z) (ws : list WireFrame) :
  forall (pre : list byte) (t mo ho : Z) (msgs : list NetworkMessage)
         (tr : list event) (n : nat),
  Forall wellFramed ws ->
  t = GetSize pre -> mo = GetSize pre ->
  GetSize pre + GetSize (wire ws) <= size -> size <= INT_MAX ->
  GetSize pre + GetSize (wire ws) < size \/ endsWithPayload ws ->
  exists ho',
    loop (pre ++ wire ws ++ rest) size (length ws + n)
         (mkFrame (AwaitingHeader [] t) ho mo msgs tr) =
    loop (pre ++ wire ws ++ rest) size n
         (mkFrame (AwaitingHeader [] (GetSize pre + GetSize (wire ws))) ho'
                  (GetSize pre + GetSize (wire ws))
                  (msgs ++ decoded ws) (tr ++ wireEvents mo ws)).
Proof.
  induction ws as [|w ws IH]; intros pre t mo ho msgs tr n Hwf Ht Hmo Hsz
    Hint Hmore.
  - cbn [wire decoded map wireEvents length Nat.add].
    change (GetSize []) with 0. rewrite !app_nil_r, Z.add_0_r.
    subst t mo. exists ho. reflexivity.
  - destruct w as [hdr payload]. cbn [wire fst snd] in *.
    inversion Hwf as [|w' ws' [H8 Hlen] Hwf']; subst w' ws'.
    cbn [fst snd] in H8, Hlen.
    pose proof (GetSize_nonneg pre) as Hpre.
    pose proof (GetSize_nonneg payload) as Hpay.
    pose proof (GetSize_nonneg (wire ws)) as Hws.
    pose proof (wire_size ws Hwf') as Hws8.
    rewrite !GetSize_app, H8 in Hsz, Hmore |- *.
    assert (Hnext : GetSize pre + 8 < size).
    { destruct Hmore as [Hmore | Hend]; [lia|].
      destruct ws as [|w1 ws1]; [cbn [endsWithPayload snd] in Hend; lia|].
      cbn [length] in Hws8. lia. }
    assert (Hmore' : GetSize (pre ++ hdr ++ payload) + GetSize (wire ws) < size
                     \/ endsWithPayload ws).
    { destruct Hmore as [Hmore | Hend].
      - left. rewrite !GetSize_app, H8. lia.
      - right. destruct ws as [|w1 ws1]; [exact I | exact Hend]. }
    cbn [length Nat.add].
    rewrite loop_step by (cbn [self AwaitingHeader m_totalBytesParsed]; lia).
    rewrite <- !app_assoc. subst mo.
    rewrite (iteration_whole_message pre hdr payload (wire ws ++ rest) size t ho
               msgs tr H8 Hlen) by arith.
    destruct (IH (pre ++ hdr ++ payload) (t + 8 + GetSize payload)
                 (GetSize payload + (8 + GetSize pre)) (8 + GetSize pre)
                 (msgs ++ [mkMessage (decodeHeader hdr) payload])
                 (tr ++ [Read (GetSize pre) 8;
                         Read (8 + GetSize pre) (GetSize payload);
                         Emit (mkMessage (decodeHeader hdr) payload)])
                 n Hwf')
      as (ho' & Hloop);
      try (rewrite !GetSize_app, ?H8; lia); try exact Hint; try exact Hmore'.
    exists ho'.
    rewrite <- !app_assoc in Hloop. rewrite Hloop.
    rewrite !GetSize_app, H8.
    replace (GetSize pre + (8 + GetSize payload) + GetSize (wire ws))
      with (GetSize pre + (8 + (GetSize payload + GetSize (wire ws)))) by lia.
    cbn [decoded map wireEvents fst snd app]. reflexivity.
Qed.

(** The loop on whole frames and the first bytes of one more header. *)
Lemma loop_wire_prefix (hp rest : list byte) (size : Z) (ws : list WireFrame)
    (pre : list byte) (t mo ho : Z) (msgs : list NetworkMessage)
    (tr : list event) (n : nat) :
  Forall wellFramed ws ->
  t = GetSize pre -> mo = GetSize pre ->
  size = GetSize pre + GetSize (wire ws) + GetSize hp ->
  GetSize hp < 8 -> size <= INT_MAX ->
  0 < GetSize hp \/ endsWithPayload ws ->
  (length ws < n)%nat ->
  exists ho' mo',
    loop (pre ++ wire ws ++ hp ++ rest) size n
         (mkFrame (AwaitingHeader [] t) ho mo msgs tr) =
    Some (Returned
            (mkFrame (AwaitingHeader hp size) ho' mo' (msgs ++ decoded ws)
                     (tr ++ wireEvents mo ws
                         ++ tailRead (GetSize pre + GetSize (wire ws))
                                     (GetSize hp)))).
Proof.
  intros Hwf Ht Hmo Hsz Hhp Hint Hmore Hn.
  pose proof (GetSize_nonneg hp) as Hhp0.
  pose proof (GetSize_nonneg pre) as Hpre.
  pose proof (GetSize_nonneg (wire ws)) as Hws.
  assert (Hle : GetSize pre + GetSize (wire ws) <= size) by lia.
  assert (Hmore' : GetSize pre + GetSize (wire ws) < size \/ endsWithPayload ws)
    by (destruct Hmore; [left; lia | right; assumption]).
  destruct (loop_wire_more (hp ++ rest) size ws pre t mo ho msgs tr
              (n - length ws) Hwf Ht Hmo Hle Hint Hmore')
    as (ho' & Hloop).
  replace (length ws + (n - length ws))%nat with n in Hloop by lia.
  rewrite Hloop. clear Hloop.
  set (W := GetSize pre + GetSize (wire ws)) in *.
  destruct (Z.eq_dec (GetSize hp) 0) as [Hz | Hnz].
  - assert (Hnil : hp = []) by (apply GetSize_nil_inv; lia). subst hp.
    exists ho', W. rewrite loop_done
      by (cbn [self AwaitingHeader m_totalBytesParsed]; lia).
    unfold tailRead. change (0 <? GetSize []) with false. cbv iota.
    rewrite app_nil_r. replace size with W by lia. reflexivity.
  - destruct (n - length ws)%nat as [|n'] eqn:En; [lia|].
    rewrite loop_step by (cbn [self AwaitingHeader m_totalBytesParsed]; lia).
    rewrite iteration_header, headerPhase_eq
      by (change (GetSize []) with 0; arith).
    cbv zeta. change (GetSize []) with 0.
    replace (Z.min (size - W) (8 - 0)) with (GetSize hp) by lia.
    replace (pre ++ wire ws ++ hp ++ rest)
      with ((pre ++ wire ws) ++ hp ++ rest)
      by (rewrite <- app_assoc; reflexivity).
    replace W with (GetSize (pre ++ wire ws))
      by (rewrite GetSize_app; reflexivity).
    rewrite fetch_at. cbn [bind app].
    replace (0 + GetSize hp =? 8) with false
      by (symmetry; apply Z.eqb_neq; lia).
    rewrite GetSize_app. fold W.
    rewrite (u32_small (W + _)) by arith.
    cbn [bind self AwaitingHeader m_isHeaderSet andb].
    rewrite loop_done
      by (cbn [self AwaitingHeader m_totalBytesParsed]; lia).
    exists ho', W. unfold tailRead.
    replace (0 <? GetSize hp) with true by (symmetry; apply Z.ltb_lt; lia).
    replace (W + (0 + GetSize hp)) with size by lia.
    rewrite <- app_assoc. reflexivity.
Qed.

(** X7 - Whole frames, then the start of a header.  On a new parser, a chunk
    of whole frames followed by fewer than 8 bytes of the next header (none,
    if the last frame has a payload) gives, in one call, the messages of the
    frames in their order and with their bytes; the call reads nothing behind
    the chunk and leaves the parser with the bytes of the next header in the
    header buffer. *)
Theorem frames_then_header_prefix (ws : list WireFrame) (hp rest : list byte)
    (msgs : list NetworkMessage) :
  Forall wellFramed ws -> GetSize hp < 8 ->
  0 < GetSize hp \/ endsWithPayload ws ->
  GetSize (wire ws) + GetSize hp <= INT_MAX ->
  ParseMessage fresh (wire ws ++ hp ++ rest)
               (GetSize (wire ws) + GetSize hp) msgs =
  Some (Returned (mkResult (AwaitingHeader hp 0) (msgs ++ decoded ws)
                   (negb (isEmpty (msgs ++ decoded ws)))
                   (wireEvents 0 ws
                      ++ tailRead (GetSize (wire ws)) (GetSize hp)))).
Proof.
  intros Hwf Hhp Hmore Hint.
  pose proof (wire_size ws Hwf) as H8.
  pose proof (GetSize_nonneg hp) as Hhp0.
  destruct (loop_wire_prefix hp rest (GetSize (wire ws) + GetSize hp) ws []
              0 0 0 msgs []
              (S (Z.to_nat (GetSize (wire ws) + GetSize hp))) Hwf)
    as (ho' & mo' & Hloop); try reflexivity; try assumption.
  { lia. }
  cbn [app] in Hloop. change (GetSize []) with 0 in Hloop.
  unfold ParseMessage, ParseMessage_fuel.
  change fresh with (AwaitingHeader [] 0). rewrite Hloop. reflexivity.
Qed.

Lemma frames_then_header_prefix_witness :
  ParseMessage fresh
    (wire [(s_header, s_messageData)] ++ firstn 3 s_header ++ [])
    (GetSize (wire [(s_header, s_messageData)]) + GetSize (firstn 3 s_header))
    [] =
  Some (Returned (mkResult (AwaitingHeader (firstn 3 s_header) 0)
                   ([] ++ decoded [(s_header, s_messageData)])
                   (negb (isEmpty ([] ++ decoded [(s_header, s_messageData)])))
                   (wireEvents 0 [(s_header, s_messageData)]
                      ++ tailRead (GetSize (wire [(s_header, s_messageData)]))
                                  (GetSize (firstn 3 s_header))))).
Proof.
  apply (frames_then_header_prefix [(s_header, s_messageData)]
           (firstn 3 s_header) [] []).
  - repeat constructor.
  - cbn. lia.
  - left. cbn. lia.
  - cbn. unfold INT_MAX. lia.
Defined.

(** X8 - Mixed-boundary chunk.  A parser that holds a header and a part of
    its payload gets a chunk with the rest of that payload (at least one
    byte), whole frames after it, and fewer than 8 bytes of one more header
    (none, if the last frame has a payload): the call emits the message it
    was holding and then the messages of the frames, in their order and with
    their bytes, reads nothing behind the chunk, and leaves the parser with
    the bytes of the next header in the header buffer. *)
Theorem payload_tail_then_frames (h : MessageHeader) (b tl : list byte)
    (ws : list WireFrame) (hp rest : list byte) (msgs : list NetworkMessage) :
  let size := GetSize tl + GetSize (wire ws) + GetSize hp in
  let m := mkMessage h (b ++ tl) in
  0 <= messageLength h < 2 ^ 32 ->
  0 < GetSize tl -> GetSize b + GetSize tl = messageLength h ->
  Forall wellFramed ws -> GetSize hp < 8 ->
  0 < GetSize hp \/ endsWithPayload ws ->
  size <= INT_MAX ->
  ParseMessage (AwaitingPayload h b 0) (tl ++ wire ws ++ hp ++ rest) size msgs =
  Some (Returned (mkResult (AwaitingHeader hp 0)
                   (msgs ++ m :: decoded ws) true
                   (Read 0 (GetSize tl) :: Emit m
                      :: wireEvents (GetSize tl) ws
                      ++ tailRead (GetSize tl + GetSize (wire ws))
                                  (GetSize hp)))).
Proof.
  intros size m Hh Htl Hfull Hwf Hhp Hmore Hint.
  pose proof (wire_size ws Hwf) as H8.
  pose proof (GetSize_nonneg hp) as Hhp0.
  pose proof (GetSize_nonneg b) as Hb0.
  pose proof (GetSize_nonneg (wire ws)) as Hws0.
  unfold ParseMessage, ParseMessage_fuel.
  rewrite loop_step
    by (cbn [self AwaitingPayload m_totalBytesParsed]; unfold size; lia).
  rewrite iteration_payload, payloadPhase_eq
    by (try assumption; unfold size; lia).
  cbv zeta.
  replace (Z.min size (messageLength h - GetSize b)) with (GetSize tl)
    by (unfold size; lia).
  rewrite to_int_ok by (unfold size in *; arith).
  rewrite to_int_ok by (unfold size in *; arith).
  rewrite fetch_prefix. cbn [bind].
  replace (GetSize b + GetSize tl =? messageLength h) with true
    by (symmetry; apply Z.eqb_eq; lia).
  rewrite (u32_small (0 + GetSize tl)) by (unfold size in *; arith).
  fold m.
  destruct (loop_wire_prefix hp rest size ws tl (0 + GetSize tl)
              (GetSize tl + 0) 0 (msgs ++ [m])
              ([] ++ [Read 0 (GetSize tl); Emit m])
              (Z.to_nat size) Hwf)
    as (ho' & mo' & Hloop); try assumption; try lia; try reflexivity.
  rewrite Hloop. cbn [self messages trace setTotal AwaitingHeader
    m_firstBuffer m_secondBuffer m_activeBuffer m_isHeaderSet m_header].
  replace (negb (isEmpty ((msgs ++ [m]) ++ decoded ws))) with true
    by (destruct msgs; reflexivity).
  rewrite <- !app_assoc. rewrite Z.add_0_r. reflexivity.
Qed.

Lemma payload_tail_then_frames_witness :
  let h := mkHeader 1 14 in
  let b := firstn 8 s_messageData in
  let tl := skipn 8 s_messageData in
  let ws := [(s_header, s_messageData)] in
  let hp := @nil byte in
  let size := GetSize tl + GetSize (wire ws) + GetSize hp in
  let m := mkMessage h (b ++ tl) in
  ParseMessage (AwaitingPayload h b 0) (tl ++ wire ws ++ hp ++ []) size [] =
  Some (Returned (mkResult (AwaitingHeader hp 0)
                   ([] ++ m :: decoded ws) true
                   (Read 0 (GetSize tl) :: Emit m
                      :: wireEvents (GetSize tl) ws
                      ++ tailRead (GetSize tl + GetSize (wire ws))
                                  (GetSize hp)))).
Proof.
  apply (payload_tail_then_frames (mkHeader 1 14) (firstn 8 s_messageData)
           (skipn 8 s_messageData) [(s_header, s_messageData)] [] [] []).
  - cbn. lia.
  - cbn. lia.
  - reflexivity.
  - repeat constructor.
  - cbn. lia.
  - right. cbn. lia.
  - cbn. unfold INT_MAX. lia.
Defined.

(** ** A stream cut at and inside the headers and payloads *)

Lemma messageLength_range (bs : list byte) :
  0 <= messageLength (decodeHeader bs) < 2 ^ 32.
Proof. apply le32_range. Qed.

Lemma repeat_snoc (A : Type) (x : A) (n : nat) :
  x :: repeat x n = repeat x n ++ [x].
Proof.
  induction n as [|n IH]; [reflexivity|].
  cbn [repeat app]. rewrite <- IH. reflexivity.
Qed.

(** The pieces of a header, each in a call of its own: the calls collect the
    header and emit nothing. *)
Lemma feed_header_pieces (more : list (list byte)) (msgs : list NetworkMessage)
    (hs : list (list byte)) :
  forall (b : Buffer) (flags : list bool),
  Forall piece hs -> GetSize b < 8 -> GetSize b + GetSize (concat hs) = 8 ->
  feed (AwaitingHeader b 0) (hs ++ more) msgs flags =
  feed (AwaitingPayload (decodeHeader (b ++ concat hs)) [] 0) more msgs
       (flags ++ repeat (negb (isEmpty msgs)) (length hs)).
Proof.
  induction hs as [|c hs IH]; intros b flags Hp Hb H8.
  - change (GetSize (concat [])) with 0 in H8. lia.
  - inversion Hp as [|c' hs' [Hc _] Hp']; subst c' hs'.
    cbn [concat app length repeat] in *. rewrite GetSize_app in H8.
    pose proof (GetSize_nonneg (concat hs)) as Hrest.
    pose proof (GetSize_nonneg b) as Hb0.
    rewrite feed_cons.
    destruct (Z.eq_dec (GetSize b + GetSize c) 8) as [Hfull | Hpart].
    + assert (Hnil : hs = []).
      { destruct hs as [|c1 hs1]; [reflexivity|].
        inversion Hp' as [|c' hs' [Hc1 _] _]; subst c' hs'.
        cbn [concat] in H8, Hrest. rewrite GetSize_app in H8.
        pose proof (GetSize_nonneg (concat hs1)). lia. }
      subst hs. cbn [concat app repeat]. rewrite app_nil_r.
      rewrite exact_header_complete by lia.
      cbn [parser output hasMessages]. reflexivity.
    + rewrite exact_header_partial by lia.
      cbn [parser output hasMessages].
      rewrite IH by (try assumption; rewrite ?GetSize_app; lia).
      rewrite <- !app_assoc. cbn [app]. reflexivity.
Qed.

(** The pieces of a payload, each in a call of its own: the call on the last
    piece emits the message and leaves the parser as new. *)
Lemma feed_payload_pieces (more : list (list byte)) (h : MessageHeader)
    (msgs : list NetworkMessage) (ps : list (list byte)) :
  forall (b : Buffer) (flags : list bool),
  Forall piece ps -> ps <> [] -> 0 <= messageLength h < 2 ^ 32 ->
  GetSize b + GetSize (concat ps) = messageLength h ->
  feed (AwaitingPayload h b 0) (ps ++ more) msgs flags =
  feed fresh more (msgs ++ [mkMessage h (b ++ concat ps)])
       (flags ++ repeat (negb (isEmpty msgs)) (length ps - 1) ++ [true]).
Proof.
  induction ps as [|c ps IH]; intros b flags Hp Hne Hh Hlen;
    [congruence|].
  inversion Hp as [|c' ps' Hc Hp']; subst c' ps'. unfold piece in Hc.
  cbn [concat app length] in *. rewrite GetSize_app in Hlen.
  pose proof (GetSize_nonneg (concat ps)) as Hrest.
  rewrite feed_cons.
  destruct ps as [|c1 ps1].
  - cbn [concat app length Nat.sub repeat] in *. rewrite app_nil_r.
    change (GetSize []) with 0 in Hlen.
    rewrite exact_payload_complete by (try assumption; lia).
    cbn [parser output hasMessages]. reflexivity.
  - inversion Hp' as [|c' ps' Hc1 _]; subst c' ps'. unfold piece in Hc1.
    cbn [concat] in Hlen, Hrest. rewrite GetSize_app in Hlen, Hrest.
    pose proof (GetSize_nonneg (concat ps1)) as Hrest1.
    rewrite exact_payload_partial by (try assumption; lia).
    cbn [parser output hasMessages].
    rewrite IH
      by (try assumption; try discriminate;
          cbn [concat]; rewrite ?GetSize_app; lia).
    rewrite <- !app_assoc.
    replace (length (c1 :: ps1) - 1)%nat with (length ps1) by (cbn; lia).
    replace (S (length (c1 :: ps1)) - 1)%nat with (S (length ps1))
      by (cbn; lia).
    cbn [app repeat]. reflexivity.
Qed.

(** X9 - A stream in pieces.  Frames with payloads of at least one byte,
    delivered in any number of calls such that every call carries one or more
    bytes of one header or of one payload and nothing else (no call goes
    across the end of a header or of a payload): the calls emit the messages
    of the frames, in their order and with their bytes, and leave the parser
    as new.  Every call before the one that completes the first message
    returns whether the vector had messages before, the others true. *)
Theorem frames_in_pieces (fs : list Pieces) :
  forall (msgs : list NetworkMessage) (flags : list bool),
  Forall inPieces fs ->
  feed fresh (flat_map calls fs) msgs flags =
  Some (Returned (fresh, msgs ++ decoded (map pieceFrame fs),
                  flags ++ flagsOf (negb (isEmpty msgs)) fs)).
Proof.
  induction fs as [|[hs ps] fs IH]; intros msgs flags Hin.
  - cbn [flat_map decoded map flagsOf feed]. rewrite !app_nil_r. reflexivity.
  - inversion Hin as [|f fs' (Hhs & Hps & Hne & H8 & Hlen) Hin']; subst f fs'.
    cbn [fst snd pieceFrame] in Hhs, Hps, Hne, H8, Hlen.
    cbn [flat_map flagsOf decoded map]. unfold calls at 1 3.
    cbn [fst snd pieceFrame]. rewrite <- app_assoc.
    change fresh with (AwaitingHeader [] 0) at 1.
    rewrite feed_header_pieces
      by (try assumption; change (GetSize []) with 0; lia).
    cbn [app].
    rewrite feed_payload_pieces
      by (try assumption; try apply messageLength_range;
          change (GetSize []) with 0; lia).
    cbn [app]. rewrite IH by assumption.
    replace (negb (isEmpty (msgs ++ [mkMessage (decodeHeader (concat hs))
                                               (concat ps)]))) with true
      by (destruct msgs; reflexivity).
    assert (Hps1 : (1 <= length ps)%nat)
      by (destruct ps; [congruence | cbn; lia]).
    replace (length (hs ++ ps) - 1)%nat
      with (length hs + (length ps - 1))%nat
      by (rewrite length_app; lia).
    rewrite repeat_app, <- !app_assoc. cbn [app]. reflexivity.
Qed.

Lemma frames_in_pieces_witness :
  feed fresh
       (flat_map calls
          [(chunks [2; 2; 3; 1]%nat s_header, chunks [7; 7]%nat s_messageData);
           ([s_header], chunks [1; 13]%nat s_messageData)])
       [] [] =
  Some (Returned
          (fresh,
           [] ++ decoded (map pieceFrame
             [(chunks [2; 2; 3; 1]%nat s_header,
               chunks [7; 7]%nat s_messageData);
              ([s_header], chunks [1; 13]%nat s_messageData)]),
           [] ++ flagsOf (negb (isEmpty (@nil NetworkMessage)))
             [(chunks [2; 2; 3; 1]%nat s_header,
               chunks [7; 7]%nat s_messageData);
              ([s_header], chunks [1; 13]%nat s_messageData)])).
Proof.
  apply (frames_in_pieces
           [(chunks [2; 2; 3; 1]%nat s_header, chunks [7; 7]%nat s_messageData);
            ([s_header], chunks [1; 13]%nat s_messageData)] [] []).
  repeat constructor; cbn; unfold INT_MAX; try lia; discriminate.
Defined.

(** ** A header completed by a chunk that goes on *)

(** The loop on whole frames when the cursor is [d] bytes ahead of the bytes
    taken from the chunk: the frames are parsed as long as the payload of the
    last one has more than [d] bytes. *)
Lemma loop_wire_lead (rest : list byte) (size d : Z) (ws : list WireFrame) :
  forall (pre : list byte) (t mo ho : Z) (msgs : list NetworkMessage)
         (tr : list event) (n : nat),
  Forall wellFramed ws -> 0 <= d < 8 ->
  t = GetSize pre + d -> mo = GetSize pre ->
  GetSize pre + GetSize (wire ws) <= size -> size + 8 <= INT_MAX ->
  lastPayloadOver d ws ->
  exists ho',
    loop (pre ++ wire ws ++ rest) size (length ws + n)
         (mkFrame (AwaitingHeader [] t) ho mo msgs tr) =
    loop (pre ++ wire ws ++ rest) size n
         (mkFrame (AwaitingHeader [] (GetSize pre + GetSize (wire ws) + d)) ho'
                  (GetSize pre + GetSize (wire ws))
                  (msgs ++ decoded ws) (tr ++ wireEvents mo ws)).
Proof.
  induction ws as [|w ws IH]; intros pre t mo ho msgs tr n Hwf Hd Ht Hmo Hsz
    Hint Hlast.
  - cbn [wire decoded map wireEvents length Nat.add].
    change (GetSize []) with 0. rewrite !app_nil_r, Z.add_0_r.
    subst t mo. exists ho. reflexivity.
  - destruct w as [hdr payload]. cbn [wire fst snd] in *.
    inversion Hwf as [|w' ws' [H8 Hlen] Hwf']; subst w' ws'.
    cbn [fst snd] in H8, Hlen.
    pose proof (GetSize_nonneg pre) as Hpre.
    pose proof (GetSize_nonneg payload) as Hpay.
    pose proof (GetSize_nonneg (wire ws)) as Hws.
    pose proof (wire_size ws Hwf') as Hws8.
    rewrite !GetSize_app, H8 in Hsz |- *.
    assert (Hnext : t + 8 < size).
    { destruct ws as [|w1 ws1]; [cbn [lastPayloadOver snd] in Hlast; lia|].
      cbn [length] in Hws8. lia. }
    assert (Hlast' : lastPayloadOver d ws).
    { destruct ws as [|w1 ws1]; [exact I | exact Hlast]. }
    cbn [length Nat.add].
    rewrite loop_step by (cbn [self AwaitingHeader m_totalBytesParsed]; lia).
    rewrite <- !app_assoc. subst mo.
    rewrite (iteration_whole_message pre hdr payload (wire ws ++ rest) size t ho
               msgs tr H8 Hlen) by arith.
    destruct (IH (pre ++ hdr ++ payload) (t + 8 + GetSize payload)
                 (GetSize payload + (8 + GetSize pre)) (8 + GetSize pre)
                 (msgs ++ [mkMessage (decodeHeader hdr) payload])
                 (tr ++ [Read (GetSize pre) 8;
                         Read (8 + GetSize pre) (GetSize payload);
                         Emit (mkMessage (decodeHeader hdr) payload)])
                 n Hwf' Hd)
      as (ho' & Hloop);
      try (rewrite !GetSize_app, ?H8; lia); try exact Hint; try exact Hlast'.
    exists ho'.
    rewrite <- !app_assoc in Hloop. rewrite Hloop.
    rewrite !GetSize_app, H8.
    replace (GetSize pre + (8 + GetSize payload) + GetSize (wire ws))
      with (GetSize pre + (8 + (GetSize payload + GetSize (wire ws)))) by lia.
    cbn [decoded map wireEvents fst snd app]. reflexivity.
Qed.

(** X10 - Carried header, then whole frames.  A parser that holds the first
    bytes of a header gets a chunk with the rest of that header, the whole
    payload and whole frames after it.  The cursor runs ahead of the chunk by
    the number of header bytes held on entry; when the payload of the last
    frame of the chunk has more bytes than that, the call still emits every
    message of the chunk, in order and with its bytes, reads nothing behind
    the chunk and leaves the parser as new. *)
Theorem carried_header_then_frames (b hrest payload : list byte)
    (ws : list WireFrame) (rest : list byte) (msgs : list NetworkMessage) :
  let h := decodeHeader (b ++ hrest) in
  let m := mkMessage h payload in
  let size := GetSize hrest + GetSize payload + GetSize (wire ws) in
  0 < GetSize b -> 0 < GetSize hrest -> GetSize b + GetSize hrest = 8 ->
  messageLength h = GetSize payload ->
  Forall wellFramed ws ->
  lastPayloadOver (GetSize b) ((b ++ hrest, payload) :: ws) ->
  size + 8 <= INT_MAX ->
  ParseMessage (AwaitingHeader b 0) (hrest ++ payload ++ wire ws ++ rest)
               size msgs =
  Some (Returned (mkResult fresh (msgs ++ m :: decoded ws) true
                   (Read 0 (GetSize hrest)
                      :: Read (GetSize hrest) (GetSize payload) :: Emit m
                      :: wireEvents (GetSize hrest + GetSize payload) ws))).
Proof.
  intros h m size Hb Hhr H8 Hlen Hwf Hlast Hint.
  pose proof (wire_size ws Hwf) as Hws8.
  pose proof (GetSize_nonneg payload) as Hpay.
  pose proof (GetSize_nonneg (wire ws)) as Hws0.
  assert (Hs8 : 8 < size).
  { unfold size.
    destruct ws as [|w1 ws1]; [cbn [lastPayloadOver snd] in Hlast; lia|].
    cbn [length] in Hws8. lia. }
  assert (Hlast' : lastPayloadOver (GetSize b) ws).
  { destruct ws as [|w1 ws1]; [exact I | exact Hlast]. }
  unfold ParseMessage, ParseMessage_fuel.
  rewrite loop_step by (cbn [self AwaitingHeader m_totalBytesParsed]; lia).
  rewrite iteration_header, headerPhase_eq by arith.
  cbv zeta.
  replace (Z.min (size - 0) (8 - GetSize b)) with (GetSize hrest)
    by (unfold size; lia).
  rewrite fetch_prefix. cbn [bind].
  replace (GetSize b + GetSize hrest =? 8) with true
    by (symmetry; apply Z.eqb_eq; lia).
  rewrite (u32_small 0), (u32_small (8 - GetSize b + 0)), (u32_small (0 + 8)),
    to_int_ok by arith.
  cbn [bind self AwaitingPayload m_isHeaderSet m_totalBytesParsed andb].
  replace (0 + 8 <? size) with true by (symmetry; apply Z.ltb_lt; lia).
  fold h.
  rewrite payloadPhase_eq
    by (rewrite Hlen; change (GetSize []) with 0; unfold size in *; arith).
  cbv zeta. rewrite Hlen. change (GetSize []) with 0.
  replace (Z.min size (GetSize payload - 0)) with (GetSize payload)
    by (unfold size; lia).
  rewrite to_int_ok by (unfold size in *; arith).
  rewrite to_int_ok by (unfold size in *; arith).
  replace (8 - GetSize b + 0) with (GetSize hrest) by lia.
  rewrite fetch_at. cbn [bind app].
  rewrite Z.eqb_refl, (u32_small (0 + 8 + _)) by (unfold size in *; arith).
  fold m.
  destruct (loop_wire_lead rest size (GetSize b) ws (hrest ++ payload)
              (0 + 8 + GetSize payload) (GetSize payload + GetSize hrest)
              (GetSize hrest) (msgs ++ [m])
              [Read 0 (GetSize hrest); Read (GetSize hrest) (GetSize payload);
               Emit m]
              (Z.to_nat size - length ws) Hwf)
    as (ho' & Hloop); try assumption;
    try (rewrite ?GetSize_app; unfold size; lia).
  replace (length ws + (Z.to_nat size - length ws))%nat with (Z.to_nat size)
    in Hloop by (unfold size; lia).
  rewrite <- !app_assoc in Hloop. rewrite Hloop.
  rewrite loop_done
    by (cbn [self AwaitingHeader m_totalBytesParsed];
        rewrite GetSize_app; unfold size; lia).
  cbn [self messages trace].
  replace (negb (isEmpty (msgs ++ [m] ++ decoded ws))) with true
    by (destruct msgs; reflexivity).
  replace (GetSize payload + GetSize hrest)
    with (GetSize hrest + GetSize payload) by lia.
  reflexivity.
Qed.

Lemma carried_header_then_frames_witness :
  let b := firstn 2 s_header in
  let hrest := skipn 2 s_header in
  let payload := s_messageData in
  let ws := [(s_header, s_messageData)] in
  let h := decodeHeader (b ++ hrest) in
  let m := mkMessage h payload in
  let size := GetSize hrest + GetSize payload + GetSize (wire ws) in
  ParseMessage (AwaitingHeader b 0) (hrest ++ payload ++ wire ws ++ [])
               size [] =
  Some (Returned (mkResult fresh ([] ++ m :: decoded ws) true
                   (Read 0 (GetSize hrest)
                      :: Read (GetSize hrest) (GetSize payload) :: Emit m
                      :: wireEvents (GetSize hrest + GetSize payload) ws))).
Proof.
  apply (carried_header_then_frames (firstn 2 s_header) (skipn 2 s_header)
           s_messageData [(s_header, s_messageData)] [] []).
  - cbn. lia.
  - cbn. lia.
  - reflexivity.
  - reflexivity.
  - repeat constructor.
  - cbn. lia.
  - cbn. unfold INT_MAX. lia.
Defined.

(** ** Bytes a call takes *)

Lemma carried_range (p : MessageParser) : idle p -> 0 <= carried p < 8.
Proof.
  intros [[(b & Hp & Hb) | (h & b & Hp & _)] _]; rewrite Hp; unfold carried;
    cbn [AwaitingHeader AwaitingPayload m_isHeaderSet active m_activeBuffer
         m_firstBuffer]; [|lia].
  pose proof (GetSize_nonneg b). lia.
Qed.

(** X11 - Bytes of a call.  A call on a chunk of at least one byte that
    returns has copied, out of the caller's memory, at least as many bytes as
    the chunk has less the bytes of an incomplete header the parser held on
    entry, which are fewer than 8: the loop goes on until the copies of the
    call and those bytes add up to the size of the chunk. *)
Theorem call_copies_all_but_carried (p : MessageParser) (rawData : list byte)
    (size : Z) (msgs : list NetworkMessage) (r : CallResult) :
  reachable p -> 0 < size < 2 ^ 32 ->
  ParseMessage p rawData size msgs = Some (Returned r) ->
  size - carried p <= consumed (events r) /\ 0 <= carried p < 8.
Proof.
  intros Hp Hsize Hcall.
  split; [|apply carried_range, reachable_idle, Hp].
  apply ParseMessage_inv in Hcall. destruct Hcall as (f & Hloop & ->).
  cbn [events].
  destruct (cursor_at_loop_end p rawData size msgs _ f Hp Hsize Hloop)
    as [Hcur Hge].
  lia.
Qed.

Lemma call_copies_all_but_carried_witness :
  2 - carried (AwaitingHeader (firstn 3 s_header) 0)
    <= consumed (events (mkResult (AwaitingHeader (firstn 5 s_header) 0) []
                                  false [Read 0 2])) /\
  0 <= carried (AwaitingHeader (firstn 3 s_header) 0) < 8.
Proof.
  apply (call_copies_all_but_carried (AwaitingHeader (firstn 3 s_header) 0)
           (firstn 2 (skipn 3 s_header)) 2 []).
  - apply (reachable_call fresh (firstn 3 s_header) 3 []
             (mkResult (AwaitingHeader (firstn 3 s_header) 0) [] false
                       [Read 0 3])).
    + exact reachable_fresh.
    + lia.
    + reflexivity.
  - lia.
  - reflexivity.
Defined.

Lemma stale_header_is_never_read_witness :
  sameOutcome sameResult
    (ParseMessage fresh s_header 8 [])
    (ParseMessage (setHeader fresh false (decodeHeader s_header)) s_header 8
                  []).
Proof.
  apply (stale_header_is_never_read fresh
           (setHeader fresh false (decodeHeader s_header)) s_header 8 []).
  repeat split. intros H. discriminate H.
Defined.

(** ** Conversions to int *)

(** The place of the next copy stays at or before the cursor. *)
Lemma visits_pos (rawData : list byte) (size : Z) (f0 f : Frame) :
  0 <= size < 2 ^ 32 -> frame_ok size f0 ->
  pos f0 <= m_totalBytesParsed (self f0) ->
  visits rawData size f0 f ->
  frame_ok size f /\ pos f <= m_totalBytesParsed (self f).
Proof.
  intros Hsize Hok Hle Hv. induction Hv as [|f f' _ [IHok IHle] Hlt Hit].
  - split; assumption.
  - split.
    + apply (iteration_ok rawData size f f' Hsize IHok Hlt Hit).
    + apply (iteration_window rawData size f f' Hsize IHok IHle Hlt Hit).
Qed.

(** In a call on a chunk of at most [INT_MAX] bytes, every [uint32_t] that
    the code stores into an [int] is a value an [int] holds: the size of the
    header buffer on line 36; on line 51, reached when the bytes the header
    lacks are in the chunk, the offset behind the header; on line 59 the
    smaller of [size] and another number.  The model then stops only at the
    signed addition of line 62 and at copies that leave the memory. *)
Lemma int_conversions_fit (p : MessageParser) (rawData : list byte) (size : Z)
    (msgs : list NetworkMessage) (f : Frame) :
  reachable p -> 0 <= size <= INT_MAX ->
  visits rawData size (mkFrame p 0 0 msgs []) f ->
  m_totalBytesParsed (self f) < size ->
  (m_isHeaderSet (self f) = false ->
     0 <= GetSize (active (self f)) <= INT_MAX /\
     (s_headerSize - GetSize (active (self f))
        <= size - m_totalBytesParsed (self f) ->
      0 <= s_headerSize - GetSize (active (self f)) + messageOffset f
        <= INT_MAX)) /\
  (forall z, 0 <= Z.min size (u32 z) <= INT_MAX).
Proof.
  intros Hp Hint Hv Hlt.
  assert (Hsize : 0 <= size < 2 ^ 32) by arith.
  split.
  - intros Hset.
    pose proof (idle_frame_ok size p msgs (reachable_idle p Hp)) as Hok.
    assert (Hle0 : pos (mkFrame p 0 0 msgs [])
                   <= m_totalBytesParsed (self (mkFrame p 0 0 msgs []))).
    { unfold pos. cbn [self headerOffset messageOffset].
      destruct (reachable_idle p Hp) as [_ ->].
      destruct (m_isHeaderSet p); lia. }
    destruct (visits_pos rawData size _ f Hsize Hok Hle0 Hv)
      as [(Hshape & _ & Hmo & Ht0 & _) Hle].
    unfold pos in Hle. rewrite Hset in Hle. unfold s_headerSize.
    destruct Hshape as [(b & Hb & Hb8) | (h & b & Hb & _)];
      [|rewrite Hb in Hset; discriminate Hset].
    assert (Hact : active (self f) = b) by (rewrite Hb; reflexivity).
    rewrite Hact. pose proof (GetSize_nonneg b) as Hb0.
    split; [arith|]. intros Hc. arith.
  - intros z. unfold u32.
    pose proof (Z.mod_pos_bound z (2 ^ 32) ltac:(lia)) as Hz. arith.
Qed.

End Common.

